(** * Cookie capture (src/app.js): the store, the three observers and the report

    A shallow embedding of [captureCookies]: the [requestCookies] Map, the
    [page.on('request')] and [page.on('response')] handlers, the
    [capturePageCookies] snapshot reader, the construction of the result
    object and the sequence of checkpoints of a run, followed by the
    properties of the merge that the specification states about them and by
    further properties of the handlers.

    Conventions of the embedding.
    - A JavaScript string is a [string] (one [ascii] per code unit; header
      text is taken to be ASCII, so [trim] and [toLowerCase] are their ASCII
      restrictions).
    - [undefined] is [None]; a field that is never assigned is [None] too.
    - A caught exception is an explicit [Threw] result.
    - A [Date] is its time value in milliseconds since the epoch, [None] for
      an Invalid Date.
    - A number is its exact value, an integer in [Z] or a rational in [Q];
      the rounding of doubles is not part of the model. *)

From Stdlib Require Import List String Ascii ZArith QArith Bool Lia.
Import ListNotations.

Local Open Scope string_scope.
Local Open Scope Z_scope.

(** ** JavaScript string primitives used by the handlers *)

Module JsString.

(** [s.split(c)] for a one-character separator: the pieces between the
    occurrences of [c]; never the empty list. *)
Fixpoint split (c : ascii) (s : string) : list string :=
  match s with
  | EmptyString => [EmptyString]
  | String a rest =>
      if Ascii.eqb a c then EmptyString :: split c rest
      else match split c rest with
           | [] => [String a EmptyString]
           | piece :: more => String a piece :: more
           end
  end.

(** White space removed by [trim] (ASCII part of WhiteSpace and
    LineTerminator): TAB, LF, VT, FF, CR and SPACE. *)
Definition isWhite (a : ascii) : bool :=
  let n := nat_of_ascii a in
  ((9 <=? n)%nat && (n <=? 13)%nat) || (n =? 32)%nat.

Fixpoint trimStart (s : string) : string :=
  match s with
  | EmptyString => EmptyString
  | String a rest => if isWhite a then trimStart rest else s
  end.

(** Drops trailing white space: a character is kept when it is not white
    or when something is kept after it. *)
Fixpoint trimEnd (s : string) : string :=
  match s with
  | EmptyString => EmptyString
  | String a rest =>
      match trimEnd rest with
      | EmptyString => if isWhite a then EmptyString else String a EmptyString
      | kept => String a kept
      end
  end.

Definition trim (s : string) : string := trimEnd (trimStart s).

Definition lowerAscii (a : ascii) : ascii :=
  let n := nat_of_ascii a in
  if ((65 <=? n)%nat && (n <=? 90)%nat)%bool then ascii_of_nat (n + 32) else a.

Fixpoint toLowerCase (s : string) : string :=
  match s with
  | EmptyString => EmptyString
  | String a rest => String (lowerAscii a) (toLowerCase rest)
  end.

(** [s.startsWith(p)] *)
Definition startsWith (p s : string) : bool := String.prefix p s.

(** [s.substring(n)]: the text from index [n] on. *)
Fixpoint substring (n : nat) (s : string) : string :=
  match n, s with
  | O, _ => s
  | S n', EmptyString => EmptyString
  | S n', String _ rest => substring n' rest
  end.

(** Truthiness of a string: every string but the empty one. *)
Definition truthy (s : string) : bool :=
  match s with EmptyString => false | String _ _ => true end.

(** Truthiness of a possibly undefined string. *)
Definition otruthy (o : option string) : bool :=
  match o with None => false | Some s => truthy s end.

Definition contains (c : ascii) (s : string) : bool :=
  existsb (Ascii.eqb c) (list_ascii_of_string s).

End JsString.

(** ** Numbers: [parseInt] with no radix argument *)

Module JsNumber.

(** Value of a digit in the given radix (10 or 16). *)
Definition digitVal (radix : Z) (a : ascii) : option Z :=
  let n := Z.of_nat (nat_of_ascii a) in
  if (48 <=? n) && (n <=? 57) then Some (n - 48)
  else if (radix =? 16) && (97 <=? n) && (n <=? 102) then Some (n - 87)
  else if (radix =? 16) && (65 <=? n) && (n <=? 70) then Some (n - 55)
  else None.

(** Longest prefix of digits, read in [radix]; [acc] is [None] until a
    digit has been read. *)
Fixpoint digits (radix : Z) (s : string) (acc : option Z) : option Z :=
  match s with
  | EmptyString => acc
  | String a rest =>
      match digitVal radix a with
      | Some d =>
          digits radix rest
            (Some (radix * match acc with Some v => v | None => 0 end + d))
      | None => acc
      end
  end.

(** After the sign: a [0x] or [0X] prefix selects radix 16. *)
Definition unsignedInt (s : string) : option Z :=
  match s with
  | String "0" (String "x" rest) => digits 16 rest None
  | String "0" (String "X" rest) => digits 16 rest None
  | _ => digits 10 s None
  end.

(** [parseInt(s)]: leading white space is skipped, then an optional sign,
    then the digits; [None] is NaN.  The result is kept as the exact
    integer (JavaScript rounds it to a double beyond 2^53). *)
Definition parseInt (s : string) : option Z :=
  match JsString.trimStart s with
  | String "-" rest => option_map Z.opp (unsignedInt rest)
  | String "+" rest => unsignedInt rest
  | t => unsignedInt t
  end.

End JsNumber.

(** ** Dates: time values, [TimeClip] and [toISOString] *)

Module JsDate.

(** Largest magnitude of a valid time value, in milliseconds. *)
Definition maxTime : Z := 8640000000000000.

(** [TimeClip] on an integral number of milliseconds. *)
Definition TimeClip (t : Z) : option Z :=
  if Z.abs t <=? maxTime then Some t else None.

(** [new Date(x)] for a finite number [x]: out of range gives an Invalid
    Date, otherwise the fraction is dropped (truncation towards zero). *)
Definition ofNumber (x : Q) : option Z :=
  if Qle_bool (inject_Z (- maxTime)) x && Qle_bool x (inject_Z maxTime)
  then Some (Z.quot (Qnum x) (Zpos (Qden x)))
  else None.

(** [d.setSeconds(d.getSeconds() + seconds)] on [d = new Date()] read at
    time [now]: the date moves by [seconds] seconds (the offset of the
    local time zone is taken as constant over that interval). *)
Definition addSeconds (now seconds : Z) : option Z :=
  TimeClip (now + 1000 * seconds).

Definition digitChar (d : Z) : ascii := ascii_of_nat (48 + Z.to_nat d).

Fixpoint padAcc (width : nat) (n : Z) (acc : string) : string :=
  match width with
  | O => acc
  | S w => padAcc w (n / 10) (String (digitChar (n mod 10)) acc)
  end.

(** Decimal numeral of [n], zero padded to [width] digits. *)
Definition pad (width : nat) (n : Z) : string := padAcc width n EmptyString.

(** Year, month and day of the day number [z] (days since the epoch) in
    the proleptic Gregorian calendar. *)
Definition civil (z : Z) : Z * Z * Z :=
  let z := z + 719468 in
  let era := z / 146097 in
  let doe := z - era * 146097 in
  let yoe := (doe - doe / 1460 + doe / 36524 - doe / 146096) / 365 in
  let doy := doe - (365 * yoe + yoe / 4 - yoe / 100) in
  let mp := (5 * doy + 2) / 153 in
  let d := doy - (153 * mp + 2) / 5 + 1 in
  let m := if mp <? 10 then mp + 3 else mp - 9 in
  let y := yoe + era * 400 + (if m <=? 2 then 1 else 0) in
  (y, m, d).

(** Four digits for the years 0 to 9999, otherwise a sign and six. *)
Definition yearString (y : Z) : string :=
  if (0 <=? y) && (y <=? 9999) then pad 4 y
  else if y <? 0 then String "-" (pad 6 (- y))
  else String "+" (pad 6 y).

(** [toISOString] of a valid time value:
    [YYYY-MM-DDTHH:mm:ss.sssZ]. *)
Definition toISOString (t : Z) : string :=
  let day := t / 86400000 in
  let ms := t mod 86400000 in
  let '(y, m, d) := civil day in
  yearString y ++ "-" ++ pad 2 m ++ "-" ++ pad 2 d ++ "T"
    ++ pad 2 (ms / 3600000) ++ ":" ++ pad 2 (ms / 60000 mod 60) ++ ":"
    ++ pad 2 (ms / 1000 mod 60) ++ "." ++ pad 3 (ms mod 1000) ++ "Z".

End JsDate.

(** ** Data model *)

(** A record of the store: the object literals of lines 58-68, 92 and
    161-168 have these properties; one that a literal does not mention is
    [None]. *)
Record Cookie : Type := mkCookie {
  name : string;
  value : option string;
  domain : string;
  url : string;
  path : option string;
  expires : option string;
  maxAge : option Z;
  httpOnly : option bool;
  secure : option bool;
  sameSite : option string
}.

(** A cookie as [Network.getAllCookies] reports it; [expires] is a number
    of seconds since the epoch. *)
Module Cdp.
Record Cookie : Type := mk {
  name : string;
  value : string;
  domain : string;
  path : string;
  expires : option Q;
  httpOnly : bool;
  secure : bool;
  sameSite : option string
}.
End Cdp.

(** An entry of [cookiesByDomain] (lines 229-237). *)
Module View.
Record t : Type := mk {
  name : string;
  value : option string;
  expires : string;
  path : option string;
  httpOnly : option bool;
  secure : option bool;
  sameSite : option string
}.
End View.

(** The outcome of a block run under [try]: its result, or an exception
    that the [catch] of the block swallows. *)
Inductive Caught (A : Type) : Type :=
| Done (a : A)
| Threw.
Arguments Done {A} a.
Arguments Threw {A}.

Definition bindCaught {A B : Type} (c : Caught A) (k : A -> Caught B) : Caught B :=
  match c with
  | Done a => k a
  | Threw => Threw
  end.

(** ** The Map [requestCookies]: keys in insertion order *)

Module Map.

Definition t : Type := list (string * Cookie).

Definition empty : t := [].

Fixpoint get (k : string) (m : t) : option Cookie :=
  match m with
  | [] => None
  | (k', v) :: rest => if String.eqb k k' then Some v else get k rest
  end.

(** [set] keeps the position of a key that is present and appends a new
    key at the end. *)
Fixpoint set (k : string) (v : Cookie) (m : t) : t :=
  match m with
  | [] => [(k, v)]
  | (k', v') :: rest =>
      if String.eqb k k' then (k', v) :: rest else (k', v') :: set k v rest
  end.

Definition keys (m : t) : list string := map fst m.

(** [Array.from(m.values())] *)
Definition values (m : t) : list Cookie := map snd m.

End Map.

(** The key of lines 53, 97 and 151. *)
Definition keyOf (d n : string) : string := d ++ "|" ++ n.

(** ** Events delivered to the handlers *)

(** [headers['set-cookie']]: missing, one string, or an array. *)
Inductive SetCookieHeaders : Type :=
| NoSetCookie
| OneSetCookie (h : string)
| ManySetCookie (hs : list string).

Inductive Event : Type :=
| Request (reqUrl hostname : string) (cookieHeader : option string)
| Response (respUrl hostname : string) (setCookie : SetCookieHeaders) (now : Z)
| Snapshot (cookies : option (list Cdp.Cookie)).

(** Result of reading one [Set-Cookie] header (lines 122-148). *)
Inductive SetCookie : Type :=
| NoName
| Malformed
| Observed (n : string) (v : option string) (e : option string) (ma : option Z).

(** The result object of lines 241-247. *)
Record Report : Type := mkReport {
  reportUrl : string;
  captureDate : string;
  totalCookies : nat;
  cookiesByDomain : list (string * list View.t);
  allCookies : list Cookie
}.

(** Names that every object literal inherits from [Object.prototype]. *)
Definition objectPrototype : list string :=
  ["constructor"; "__defineGetter__"; "__defineSetter__"; "hasOwnProperty";
   "__lookupGetter__"; "__lookupSetter__"; "isPrototypeOf";
   "propertyIsEnumerable"; "toString"; "valueOf"; "__proto__";
   "toLocaleString"].

Definition sessionSentinel : string := "Session cookie (no expiration)".

(** ** Sample inputs *)

(** A date parser for the examples: it knows two dates in the form that
    [Expires] attributes use and rejects every other text. *)
Definition sampleDateParse (text : string) : option Z :=
  if String.eqb text "Thu, 01 Jan 2026 00:00:00 GMT" then Some 1767225600000
  else if String.eqb text "Thu, 01 Jan 1970 00:00:00 GMT" then Some 0
  else None.

(** The clock of the examples: 2026-01-01T00:00:00.000Z. *)
Definition sampleNow : Z := 1767225600000.

Definition sampleRequest : Event :=
  Request "https://x.com/p" "x.com" (Some "a=1").

Definition sampleSetCookie : Event :=
  Response "https://x.com/" "x.com" (OneSetCookie "a=1; Max-Age=3600") sampleNow.

(** The store reports [x.com|a] as a session cookie with another value. *)
Definition sampleSessionCookie : Cdp.Cookie :=
  Cdp.mk "a" "2" "x.com" "/" (Some 0%Q) true false None.

(** The browser's way to report a session cookie. *)
Definition sampleMinusOne : Cdp.Cookie :=
  Cdp.mk "sid" "tok" ".x.com" "/" (Some (-1 # 1)%Q) true false (Some "Lax").

(** A negative expiry beyond the range of a Date. *)
Definition sampleFarPast : Cdp.Cookie :=
  Cdp.mk "old" "v" "x.com" "/" (Some (-9000000000000 # 1)%Q) false false None.

Section Capture.

(** [Date.parse]: the time value a date string denotes, [None] when the
    string is not a date.  Its grammar is left to the JavaScript engine,
    so it is a parameter of the development. *)
Variable Date_parse : string -> option Z.

(** [new Date(text)] *)
Definition dateOfString (text : string) : option Z :=
  match Date_parse text with
  | Some t => JsDate.TimeClip t
  | None => None
  end.

(** *** Request headers (lines 81-102) *)

(** Line 91-92: one segment of the [Cookie:] header. *)
Definition requestCookie (hostname reqUrl segment : string) : Cookie :=
  let pieces := JsString.split "=" (JsString.trim segment) in
  {| name := hd EmptyString pieces;
     value := nth_error pieces 1;
     domain := hostname;
     url := reqUrl;
     path := None; expires := None; maxAge := None;
     httpOnly := None; secure := None; sameSite := None |}.

(** Line 90: [cookieHeader.split(';').map(...)]. *)
Definition parseCookieHeader (hostname reqUrl cookieHeader : string) : list Cookie :=
  map (requestCookie hostname reqUrl) (JsString.split ";" cookieHeader).

(** Lines 97-98. *)
Definition storeRequestCookie (m : Map.t) (c : Cookie) : Map.t :=
  Map.set (keyOf (domain c) (name c)) c m.

Definition onRequest (m : Map.t) (reqUrl hostname : string)
    (cookieHeader : option string) : Map.t :=
  match cookieHeader with
  | Some h =>
      if JsString.truthy h
      then fold_left storeRequestCookie (parseCookieHeader hostname reqUrl h) m
      else m
  | None => m
  end.

(** *** Set-Cookie headers (lines 105-178) *)

(** One turn of the loop of lines 132-148 on the pair [(expires, maxAge)].
    [toISOString] of an Invalid Date throws a RangeError. *)
Definition attribute (now : Z) (st : option string * option Z)
    (rawPart : string) : Caught (option string * option Z) :=
  let part := JsString.trim rawPart in
  if JsString.startsWith "expires=" (JsString.toLowerCase part) then
    match dateOfString (JsString.substring 8 part) with
    | Some t => Done (Some (JsDate.toISOString t), snd st)
    | None => Threw
    end
  else if JsString.startsWith "max-age=" (JsString.toLowerCase part) then
    match JsNumber.parseInt (JsString.substring 8 part) with
    | Some seconds =>
        if JsString.otruthy (fst st) then Done (fst st, Some seconds)
        else match JsDate.addSeconds now seconds with
             | Some t => Done (Some (JsDate.toISOString t), Some seconds)
             | None => Threw
             end
    | None => Done st
    end
  else Done st.

Fixpoint attributes (now : Z) (st : option string * option Z)
    (parts : list string) : Caught (option string * option Z) :=
  match parts with
  | [] => Done st
  | p :: rest => bindCaught (attribute now st p) (fun st' => attributes now st' rest)
  end.

(** Lines 122-148. *)
Definition parseSetCookie (now : Z) (setCookie : string) : SetCookie :=
  let cookieParts := JsString.split ";" setCookie in
  let mainPart := JsString.trim (hd EmptyString cookieParts) in
  let pieces := JsString.split "=" mainPart in
  let n := hd EmptyString pieces in
  if negb (JsString.truthy n) then NoName
  else match attributes now (None, None) (tl cookieParts) with
       | Done (e, ma) => Observed n (nth_error pieces 1) e ma
       | Threw => Malformed
       end.

(** Lines 151-169. *)
Definition storeSetCookie (m : Map.t) (respUrl hostname : string)
    (n : string) (v e : option string) (ma : option Z) : Map.t :=
  let key := keyOf hostname n in
  match Map.get key m with
  | Some existingCookie =>
      Map.set key
        {| name := name existingCookie; value := value existingCookie;
           domain := domain existingCookie; url := url existingCookie;
           path := path existingCookie;
           expires := e; maxAge := ma;
           httpOnly := httpOnly existingCookie;
           secure := secure existingCookie;
           sameSite := sameSite existingCookie |} m
  | None =>
      Map.set key
        {| name := n; value := v; domain := hostname; url := respUrl;
           path := None; expires := e; maxAge := ma;
           httpOnly := None; secure := None; sameSite := None |} m
  end.

(** The body of the loop of line 119 for one header. *)
Definition onSetCookie (now : Z) (respUrl hostname : string) (m : Map.t)
    (setCookie : string) : Map.t :=
  match parseSetCookie now setCookie with
  | Observed n v e ma => storeSetCookie m respUrl hostname n v e ma
  | NoName => m
  | Malformed => m
  end.

Definition onResponse (m : Map.t) (respUrl hostname : string)
    (headers : SetCookieHeaders) (now : Z) : Map.t :=
  match headers with
  | NoSetCookie => m
  | OneSetCookie h =>
      if JsString.truthy h then onSetCookie now respUrl hostname m h else m
  | ManySetCookie hs => fold_left (onSetCookie now respUrl hostname) hs m
  end.

(** *** Snapshots of the browser's cookie store (lines 39-78) *)

(** Truthiness of a number: every number but zero. *)
Definition numberTruthy (q : Q) : bool := negb (Qeq_bool q 0).

(** Line 63. *)
Definition snapshotExpires (e : option Q) : Caught (option string) :=
  match e with
  | None => Done None
  | Some q =>
      if numberTruthy q then
        match JsDate.ofNumber (q * 1000) with
        | Some t => Done (Some (JsDate.toISOString t))
        | None => Threw
        end
      else Done None
  end.

(** Lines 49-51. *)
Definition snapshotUrl (d : string) : string :=
  if JsString.startsWith "." d then "https://" ++ JsString.substring 1 d
  else "https://" ++ d.

(** The object literal of lines 58-68. *)
Definition snapshotRecord (c : Cdp.Cookie) : Caught Cookie :=
  bindCaught (snapshotExpires (Cdp.expires c)) (fun e =>
    Done {| name := Cdp.name c; value := Some (Cdp.value c);
            domain := Cdp.domain c; url := snapshotUrl (Cdp.domain c);
            path := Some (Cdp.path c); expires := e; maxAge := None;
            httpOnly := Some (Cdp.httpOnly c);
            secure := Some (Cdp.secure c);
            sameSite := Cdp.sameSite c |}).

(** Line 57: [!existing || !existing.expires]. *)
Definition lacksExpiry (existing : option Cookie) : bool :=
  match existing with
  | None => true
  | Some c => negb (JsString.otruthy (expires c))
  end.

(** Lines 48-72 for one cookie of the snapshot. *)
Definition onSnapshotCookie (m : Map.t) (c : Cdp.Cookie) : Map.t :=
  let key := keyOf (Cdp.domain c) (Cdp.name c) in
  if lacksExpiry (Map.get key m) then
    match snapshotRecord c with
    | Done r => Map.set key r m
    | Threw => m
    end
  else m.

Definition capturePageCookies (m : Map.t) (cookies : option (list Cdp.Cookie)) : Map.t :=
  match cookies with
  | Some cs => fold_left onSnapshotCookie cs m
  | None => m
  end.

(** *** A capture run *)

Definition step (m : Map.t) (ev : Event) : Map.t :=
  match ev with
  | Request u h c => onRequest m u h c
  | Response u h sc now => onResponse m u h sc now
  | Snapshot cs => capturePageCookies m cs
  end.

(** The store after the events of a run, from the empty Map of line 33. *)
Definition run (evs : list Event) : Map.t := fold_left step evs Map.empty.

(** ** The report (lines 220-247) *)

(** Lines 229-237. *)
Definition viewOf (c : Cookie) : View.t :=
  {| View.name := name c;
     View.value := value c;
     View.expires := if JsString.otruthy (expires c)
                     then match expires c with Some e => e | None => EmptyString end
                     else sessionSentinel;
     View.path := path c;
     View.httpOnly := httpOnly c;
     View.secure := secure c;
     View.sameSite := sameSite c |}.

Fixpoint ownProperty (d : string) (o : list (string * list View.t)) : option (list View.t) :=
  match o with
  | [] => None
  | (d', vs) :: rest => if String.eqb d d' then Some vs else ownProperty d rest
  end.

Fixpoint pushTo (d : string) (v : View.t) (o : list (string * list View.t))
  : list (string * list View.t) :=
  match o with
  | [] => []
  | (d', vs) :: rest =>
      if String.eqb d d' then (d', (vs ++ [v])%list) :: rest else (d', vs) :: pushTo d v rest
  end.

(** Lines 226-237 for one cookie.  [cookiesByDomain] starts as [{}]: for a
    domain that names a member of [Object.prototype] the test of line 226
    finds that member, and [push] on it throws a TypeError. *)
Definition groupCookie (o : list (string * list View.t)) (c : Cookie)
  : Caught (list (string * list View.t)) :=
  match ownProperty (domain c) o with
  | Some _ => Done (pushTo (domain c) (viewOf c) o)
  | None =>
      if existsb (String.eqb (domain c)) objectPrototype then Threw
      else Done (o ++ [(domain c, [viewOf c])])%list
  end.

Fixpoint groupByDomain (o : list (string * list View.t)) (cs : list Cookie)
  : Caught (list (string * list View.t)) :=
  match cs with
  | [] => Done o
  | c :: rest => bindCaught (groupCookie o c) (fun o' => groupByDomain o' rest)
  end.

(** Lines 221-247; [now] is the clock read by line 243. *)
Definition buildReport (target : string) (now : Z) (m : Map.t) : Caught Report :=
  let cookiesArray := Map.values m in
  bindCaught (groupByDomain [] cookiesArray) (fun byDomain =>
    Done {| reportUrl := target;
            captureDate := JsDate.toISOString now;
            totalCookies := List.length cookiesArray;
            cookiesByDomain := byDomain;
            allCookies := cookiesArray |}).

(** ** Vocabulary of the statements *)

(** The two tests of lines 134 and 136 on a raw attribute segment. *)
Definition isExpires (rawPart : string) : bool :=
  JsString.startsWith "expires=" (JsString.toLowerCase (JsString.trim rawPart)).

Definition isMaxAge (rawPart : string) : bool :=
  JsString.startsWith "max-age=" (JsString.toLowerCase (JsString.trim rawPart)).

(** The text of an attribute after its eight-character prefix. *)
Definition attributeText (rawPart : string) : string :=
  JsString.substring 8 (JsString.trim rawPart).

(** The name that line 91 reads from a segment of a [Cookie:] header. *)
Definition segmentName (segment : string) : string :=
  hd EmptyString (JsString.split "=" (JsString.trim segment)).

(** An [expires] field is absent or is the ISO text of some time value. *)
Definition isoOrAbsent (e : option string) : Prop :=
  e = None \/ exists t, e = Some (JsDate.toISOString t).

(** A stored entry sits under the key of its own domain and name. *)
Definition entryOk (kc : string * Cookie) : Prop :=
  fst kc = keyOf (domain (snd kc)) (name (snd kc))
  /\ isoOrAbsent (expires (snd kc)).

Definition storeOk (m : Map.t) : Prop :=
  NoDup (Map.keys m) /\ Forall entryOk m.

(** Keys of the observations that are not dropped: every segment of a
    [Cookie:] header, every [Set-Cookie] header that is read without error,
    every snapshot cookie whose record can be built. *)
Definition requestKeys (hostname reqUrl cookieHeader : string) : list string :=
  map (fun r => keyOf (domain r) (name r)) (parseCookieHeader hostname reqUrl cookieHeader).

Definition setCookieKeys (now : Z) (hostname hdr : string) : list string :=
  match parseSetCookie now hdr with
  | Observed n _ _ _ => [keyOf hostname n]
  | _ => []
  end.

Definition snapshotKeys (c : Cdp.Cookie) : list string :=
  match snapshotRecord c with
  | Done _ => [keyOf (Cdp.domain c) (Cdp.name c)]
  | Threw => []
  end.

Definition observedKeys (ev : Event) : list string :=
  match ev with
  | Request u h (Some c) => if JsString.truthy c then requestKeys h u c else []
  | Request _ _ None => []
  | Response u h NoSetCookie now => []
  | Response u h (OneSetCookie hdr) now =>
      if JsString.truthy hdr then setCookieKeys now h hdr else []
  | Response u h (ManySetCookie hs) now => flat_map (setCookieKeys now h) hs
  | Snapshot (Some cs) => flat_map snapshotKeys cs
  | Snapshot None => []
  end.

(** The grouped view as the specification words it: [expires] is the
    record's when it is defined, the sentinel when it is undefined. *)
Definition viewSpec (c : Cookie) : View.t :=
  {| View.name := name c;
     View.value := value c;
     View.expires := match expires c with
                     | Some e => e
                     | None => sessionSentinel
                     end;
     View.path := path c;
     View.httpOnly := httpOnly c;
     View.secure := secure c;
     View.sameSite := sameSite c |}.

(** ** The capture run as a whole (lines 13-261) *)









(** Keys in the order of their first occurrence. *)
Definition addKey (seen : list string) (k : string) : list string :=
  if in_dec string_dec k seen then seen else (seen ++ [k])%list.

Definition firstOccurrences (ks : list string) : list string :=
  fold_left addKey ks [].

(** The last cookie of a list that has the key [k]. *)
Fixpoint lastWithKey (k : string) (cs : list Cookie) : option Cookie :=
  match cs with
  | [] => None
  | c :: rest =>
      match lastWithKey k rest with
      | Some c' => Some c'
      | None => if String.eqb (keyOf (domain c) (name c)) k then Some c else None
      end
  end.

(** A text without white space, [;] and [=]. *)
Definition plainChar (a : ascii) : bool :=
  negb (JsString.isWhite a || Ascii.eqb a ";" || Ascii.eqb a "=").

Definition plain (s : string) : bool :=
  forallb plainChar (list_ascii_of_string s).

(** The [Cookie:] header that a browser writes for a list of pairs. *)
Fixpoint cookieHeaderOf (pairs : list (string * string)) : string :=
  match pairs with
  | [] => EmptyString
  | [(n, v)] => n ++ "=" ++ v
  | (n, v) :: rest => n ++ "=" ++ v ++ "; " ++ cookieHeaderOf rest
  end.

(** Number of views in all the groups of [cookiesByDomain]. *)
Definition groupedCount (o : list (string * list View.t)) : nat :=
  fold_right (fun dv n => (List.length (snd dv) + n)%nat) O o.

(** The records of a snapshot for the key [k], in the order of the list. *)
Definition snapshotRecordsFor (k : string) (cs : list Cdp.Cookie) : list Cookie :=
  flat_map (fun c =>
              if String.eqb (keyOf (Cdp.domain c) (Cdp.name c)) k
              then match snapshotRecord c with
                   | Done r => [r]
                   | Threw => []
                   end
              else []) cs.

(** Line 57 on the record that a key holds. *)
Definition mergeSnapshotRecord (cur : option Cookie) (r : Cookie) : option Cookie :=
  if lacksExpiry cur then Some r else cur.
(** Which fields of a stored record go together. *)
Definition shapeOk (r : Cookie) : Prop :=
  (maxAge r <> None -> expires r <> None)
  /\ (path r = None <-> httpOnly r = None)
  /\ (path r = None <-> secure r = None)
  /\ (sameSite r <> None -> path r <> None)
  /\ (path r <> None -> value r <> None /\ url r = snapshotUrl (domain r)).
(** A cookie of the store with an expiry: 2026-01-01T00:00:00.5Z. *)
Definition sampleDated : Cdp.Cookie :=
  Cdp.mk "a" "2" "x.com" "/" (Some (17672256005 # 10)%Q) true true (Some "Lax").


(** * Properties *)

(** ** Strings *)

Lemma split_not_nil (c : ascii) (s : string) : JsString.split c s <> [].
Proof.
  destruct s as [|a rest]; simpl; [discriminate|].
  destruct (Ascii.eqb a c); [discriminate|].
  destruct (JsString.split c rest); discriminate.
Qed.

Lemma contains_cons (c a : ascii) (s : string) :
  JsString.contains c (String a s) = Ascii.eqb c a || JsString.contains c s.
Proof. reflexivity. Qed.

Lemma contains_app (c : ascii) (a b : string) :
  JsString.contains c (a ++ b) = JsString.contains c a || JsString.contains c b.
Proof.
  induction a as [|x a IH]; [reflexivity|].
  change (String x a ++ b) with (String x (a ++ b)).
  rewrite !contains_cons, IH. apply orb_assoc.
Qed.

(** A string without the separator is its own single piece. *)
Lemma split_without (c : ascii) (s : string) :
  JsString.contains c s = false -> JsString.split c s = [s].
Proof.
  induction s as [|a rest IH]; intros H; [reflexivity|].
  rewrite contains_cons in H. apply orb_false_iff in H as [Ha Hr].
  simpl. rewrite Ascii.eqb_sym, Ha, (IH Hr). reflexivity.
Qed.

(** The pieces of a split never contain the separator. *)
Lemma split_pieces_without (c : ascii) (s piece : string) :
  In piece (JsString.split c s) -> JsString.contains c piece = false.
Proof.
  revert piece. induction s as [|a rest IH]; intros piece Hin.
  - destruct Hin as [<-|[]]. reflexivity.
  - simpl in Hin. destruct (Ascii.eqb a c) eqn:Hac.
    + destruct Hin as [<-|Hin]; [reflexivity|]. now apply IH.
    + destruct (JsString.split c rest) as [|p more] eqn:Hs.
      * now destruct (split_not_nil c rest).
      * destruct Hin as [<-|Hin].
        -- rewrite contains_cons, Ascii.eqb_sym, Hac. apply IH. now left.
        -- apply IH. now right.
Qed.

Lemma trimStart_without (c : ascii) (s : string) :
  JsString.contains c s = false -> JsString.contains c (JsString.trimStart s) = false.
Proof.
  induction s as [|a rest IH]; intros H; [reflexivity|].
  simpl. destruct (JsString.isWhite a); [|exact H].
  rewrite contains_cons in H. apply orb_false_iff in H as [_ Hr]. now apply IH.
Qed.

Lemma trimEnd_without (c : ascii) (s : string) :
  JsString.contains c s = false -> JsString.contains c (JsString.trimEnd s) = false.
Proof.
  induction s as [|a rest IH]; intros H; [reflexivity|].
  rewrite contains_cons in H. apply orb_false_iff in H as [Ha Hr].
  specialize (IH Hr). simpl.
  destruct (JsString.trimEnd rest) as [|b kept].
  - destruct (JsString.isWhite a); [reflexivity|].
    rewrite contains_cons, Ha. reflexivity.
  - rewrite contains_cons, Ha. exact IH.
Qed.

Lemma trim_without (c : ascii) (s : string) :
  JsString.contains c s = false -> JsString.contains c (JsString.trim s) = false.
Proof. intros H. unfold JsString.trim. now apply trimEnd_without, trimStart_without. Qed.

Lemma truthy_app_r (a b : string) :
  JsString.truthy b = true -> JsString.truthy (a ++ b) = true.
Proof. destruct a; [trivial | reflexivity]. Qed.

(** ** ISO date text *)

Lemma toISOString_truthy (t : Z) : JsString.truthy (JsDate.toISOString t) = true.
Proof.
  unfold JsDate.toISOString. destruct (JsDate.civil (t / 86400000)) as [[y m] d].
  apply truthy_app_r. reflexivity.
Qed.

Lemma contains_app_r (c : ascii) (a b : string) :
  JsString.contains c b = true -> JsString.contains c (a ++ b) = true.
Proof. intros H. rewrite contains_app, H. apply orb_true_r. Qed.

Lemma toISOString_has_Z (t : Z) : JsString.contains "Z" (JsDate.toISOString t) = true.
Proof.
  unfold JsDate.toISOString. destruct (JsDate.civil (t / 86400000)) as [[y m] d].
  do 13 apply contains_app_r. reflexivity.
Qed.

Lemma toISOString_not_sentinel (t : Z) : JsDate.toISOString t <> sessionSentinel.
Proof.
  intros H. pose proof (toISOString_has_Z t) as C. rewrite H in C. discriminate C.
Qed.

Lemma isoOrAbsent_truthy (e : option string) :
  isoOrAbsent e -> e <> None -> JsString.otruthy e = true.
Proof.
  intros [->|[t ->]] H; [congruence|]. apply toISOString_truthy.
Qed.

(** ** The Map *)

Lemma get_set_same (k : string) (v : Cookie) (m : Map.t) :
  Map.get k (Map.set k v m) = Some v.
Proof.
  induction m as [|[k' v'] rest IH]; simpl.
  - now rewrite String.eqb_refl.
  - destruct (String.eqb k k') eqn:E; simpl; rewrite E; [reflexivity | exact IH].
Qed.

Lemma get_set_other (k k' : string) (v : Cookie) (m : Map.t) :
  k <> k' -> Map.get k' (Map.set k v m) = Map.get k' m.
Proof.
  intros Hne. induction m as [|[k0 v0] rest IH]; simpl.
  - destruct (String.eqb k' k) eqn:E; [|reflexivity].
    apply String.eqb_eq in E. congruence.
  - destruct (String.eqb k k0) eqn:E; simpl.
    + apply String.eqb_eq in E. subst k0.
      destruct (String.eqb k' k) eqn:E'; [|reflexivity].
      apply String.eqb_eq in E'. congruence.
    + now rewrite IH.
Qed.

Lemma get_in_keys (k : string) (m : Map.t) :
  In k (Map.keys m) <-> exists v, Map.get k m = Some v.
Proof.
  induction m as [|[k' v'] rest IH]; simpl.
  - split; [tauto | intros [v H]; discriminate].
  - destruct (String.eqb k k') eqn:E.
    + apply String.eqb_eq in E. split; [eauto | auto].
    + apply String.eqb_neq in E. rewrite <- IH. split; [intros [H|H]; congruence || auto | auto].
Qed.

Lemma get_in (k : string) (v : Cookie) (m : Map.t) :
  Map.get k m = Some v -> In (k, v) m.
Proof.
  induction m as [|[k' v'] rest IH]; simpl; [discriminate|].
  destruct (String.eqb k k') eqn:E.
  - apply String.eqb_eq in E. intros [= ->]. left. now subst.
  - auto.
Qed.

Lemma in_get (k : string) (v : Cookie) (m : Map.t) :
  NoDup (Map.keys m) -> In (k, v) m -> Map.get k m = Some v.
Proof.
  induction m as [|[k' v'] rest IH]; simpl; [tauto|].
  intros Hnd [H|H]; inversion Hnd as [|? ? Hnotin Hnd']; subst.
  - injection H as -> ->. now rewrite String.eqb_refl.
  - destruct (String.eqb k k') eqn:E; [|auto].
    apply String.eqb_eq in E. subst k'. exfalso. apply Hnotin.
    change k with (fst (k, v)). unfold Map.keys. now apply in_map.
Qed.

(** [set] on a present key keeps the keys, on a new key appends it. *)
Lemma keys_set (k : string) (v : Cookie) (m : Map.t) :
  Map.keys (Map.set k v m)
  = if in_dec string_dec k (Map.keys m) then Map.keys m else (Map.keys m ++ [k])%list.
Proof.
  unfold Map.keys.
  induction m as [|[k' v'] rest IH]; simpl; [reflexivity|].
  destruct (String.eqb k k') eqn:E.
  - apply String.eqb_eq in E. subst k'. simpl.
    destruct (string_dec k k); [|congruence].
    destruct (in_dec string_dec k (map fst rest)); reflexivity.
  - apply String.eqb_neq in E. simpl. rewrite IH.
    destruct (string_dec k' k); [congruence|].
    destruct (in_dec string_dec k (map fst rest)); reflexivity.
Qed.

Lemma in_keys_set (k k' : string) (v : Cookie) (m : Map.t) :
  In k' (Map.keys (Map.set k v m)) <-> In k' (Map.keys m) \/ k' = k.
Proof.
  rewrite keys_set. destruct (in_dec string_dec k (Map.keys m)) as [Hin|Hout].
  - split; [auto | intros [H| ->]; auto].
  - rewrite in_app_iff. simpl. intuition congruence.
Qed.

Lemma NoDup_keys_set (k : string) (v : Cookie) (m : Map.t) :
  NoDup (Map.keys m) -> NoDup (Map.keys (Map.set k v m)).
Proof.
  intros Hnd. rewrite keys_set.
  destruct (in_dec string_dec k (Map.keys m)) as [Hin|Hout]; [exact Hnd|].
  apply NoDup_app; [exact Hnd | repeat constructor; auto | ].
  intros x Hx [<-|[]]. contradiction.
Qed.

Lemma in_set (k : string) (v : Cookie) (m : Map.t) (kc : string * Cookie) :
  In kc (Map.set k v m) -> kc = (k, v) \/ In kc m.
Proof.
  induction m as [|[k' v'] rest IH]; simpl.
  - intros [H|[]]; auto.
  - destruct (String.eqb k k') eqn:E; simpl.
    + apply String.eqb_eq in E. subst k'. intros [H|H]; auto.
    + intros [H|H]; auto. destruct (IH H); auto.
Qed.

(** ** Every reachable store is well formed *)

Lemma storeOk_empty : storeOk Map.empty.
Proof. split; constructor. Qed.

Lemma storeOk_set (k : string) (v : Cookie) (m : Map.t) :
  storeOk m -> entryOk (k, v) -> storeOk (Map.set k v m).
Proof.
  intros [Hnd Hall] Hv. split; [now apply NoDup_keys_set|].
  apply Forall_forall. intros kc Hin.
  destruct (in_set _ _ _ _ Hin) as [->|Hold]; [exact Hv|].
  rewrite Forall_forall in Hall. now apply Hall.
Qed.

Lemma storeOk_get (k : string) (v : Cookie) (m : Map.t) :
  storeOk m -> Map.get k m = Some v ->
  k = keyOf (domain v) (name v) /\ isoOrAbsent (expires v).
Proof.
  intros [_ Hall] Hget. rewrite Forall_forall in Hall.
  exact (Hall _ (get_in _ _ _ Hget)).
Qed.

Lemma storeOk_fold {A : Type} (f : Map.t -> A -> Map.t) (l : list A) :
  (forall m a, storeOk m -> storeOk (f m a)) ->
  forall m, storeOk m -> storeOk (fold_left f l m).
Proof.
  intros Hf. induction l as [|a l IH]; intros m Hm; simpl; auto.
Qed.

Lemma storeRequestCookie_ok (m : Map.t) (hostname reqUrl segment : string) :
  storeOk m -> storeOk (storeRequestCookie m (requestCookie hostname reqUrl segment)).
Proof.
  intros Hm. apply storeOk_set; [exact Hm|]. split; [reflexivity | now left].
Qed.

Lemma onRequest_ok (m : Map.t) (reqUrl hostname : string) (h : option string) :
  storeOk m -> storeOk (onRequest m reqUrl hostname h).
Proof.
  intros Hm. unfold onRequest. destruct h as [h|]; [|exact Hm].
  destruct (JsString.truthy h); [|exact Hm].
  unfold parseCookieHeader. revert m Hm.
  induction (JsString.split ";" h) as [|seg segs IH]; intros m Hm; simpl; [exact Hm|].
  apply IH. now apply storeRequestCookie_ok.
Qed.

Lemma attribute_iso (now : Z) (st st' : option string * option Z) (p : string) :
  attribute now st p = Done st' -> isoOrAbsent (fst st) -> isoOrAbsent (fst st').
Proof.
  unfold attribute. intros H Hst.
  destruct (JsString.startsWith "expires=" _).
  - destruct (dateOfString _) as [t|]; [|discriminate].
    injection H as <-. right. now exists t.
  - destruct (JsString.startsWith "max-age=" _); [|now injection H as <-].
    destruct (JsNumber.parseInt _) as [seconds|]; [|now injection H as <-].
    destruct (JsString.otruthy (fst st)); [now injection H as <-|].
    destruct (JsDate.addSeconds now seconds) as [t|]; [|discriminate].
    injection H as <-. right. now exists t.
Qed.

Lemma attributes_iso (now : Z) (parts : list string) :
  forall st st', attributes now st parts = Done st' ->
                 isoOrAbsent (fst st) -> isoOrAbsent (fst st').
Proof.
  induction parts as [|p rest IH]; intros st st' H Hst; simpl in H.
  - now injection H as <-.
  - destruct (attribute now st p) as [st1|] eqn:E; [|discriminate].
    simpl in H. eapply IH; [exact H|]. eapply attribute_iso; eauto.
Qed.

Lemma parseSetCookie_iso (now : Z) (hdr n : string) (v e : option string) (ma : option Z) :
  parseSetCookie now hdr = Observed n v e ma -> isoOrAbsent e.
Proof.
  unfold parseSetCookie. destruct (negb _); [discriminate|].
  destruct (attributes now (None, None) _) as [[e' ma']|] eqn:E; [|discriminate].
  intros [= _ _ <- _].
  change e' with (fst (e', ma')). eapply attributes_iso; [exact E|]. now left.
Qed.

Lemma storeSetCookie_ok (m : Map.t) (respUrl hostname n : string)
    (v e : option string) (ma : option Z) :
  storeOk m -> isoOrAbsent e -> storeOk (storeSetCookie m respUrl hostname n v e ma).
Proof.
  intros Hm He. unfold storeSetCookie.
  destruct (Map.get (keyOf hostname n) m) as [ex|] eqn:G.
  - apply storeOk_set; [exact Hm|].
    destruct (storeOk_get _ _ _ Hm G) as [Hk _]. split; [exact Hk | exact He].
  - apply storeOk_set; [exact Hm|]. split; [reflexivity | exact He].
Qed.

Lemma onSetCookie_ok (now : Z) (respUrl hostname : string) (m : Map.t) (hdr : string) :
  storeOk m -> storeOk (onSetCookie now respUrl hostname m hdr).
Proof.
  intros Hm. unfold onSetCookie.
  destruct (parseSetCookie now hdr) as [| |n v e ma] eqn:P; try exact Hm.
  apply storeSetCookie_ok; [exact Hm|]. eapply parseSetCookie_iso; eauto.
Qed.

Lemma onResponse_ok (m : Map.t) (respUrl hostname : string)
    (sc : SetCookieHeaders) (now : Z) :
  storeOk m -> storeOk (onResponse m respUrl hostname sc now).
Proof.
  intros Hm. destruct sc as [|h|hs]; simpl; [exact Hm| |].
  - destruct (JsString.truthy h); [now apply onSetCookie_ok | exact Hm].
  - apply storeOk_fold; [|exact Hm]. intros; now apply onSetCookie_ok.
Qed.

Lemma snapshotExpires_iso (q : option Q) (e : option string) :
  snapshotExpires q = Done e -> isoOrAbsent e.
Proof.
  unfold snapshotExpires. destruct q as [q|]; [|intros [= <-]; now left].
  destruct (numberTruthy q); [|intros [= <-]; now left].
  destruct (JsDate.ofNumber _) as [t|]; [|discriminate].
  intros [= <-]. right. now exists t.
Qed.

Lemma snapshotRecord_fields (c : Cdp.Cookie) (r : Cookie) :
  snapshotRecord c = Done r ->
  name r = Cdp.name c /\ domain r = Cdp.domain c /\ value r = Some (Cdp.value c)
  /\ snapshotExpires (Cdp.expires c) = Done (expires r).
Proof.
  unfold snapshotRecord. destruct (snapshotExpires (Cdp.expires c)) as [e|]; [|discriminate].
  simpl. intros [= <-]. simpl. auto.
Qed.

Lemma onSnapshotCookie_ok (m : Map.t) (c : Cdp.Cookie) :
  storeOk m -> storeOk (onSnapshotCookie m c).
Proof.
  intros Hm. unfold onSnapshotCookie.
  destruct (lacksExpiry _); [|exact Hm].
  destruct (snapshotRecord c) as [r|] eqn:R; [|exact Hm].
  destruct (snapshotRecord_fields _ _ R) as (Hn & Hd & _ & He).
  apply storeOk_set; [exact Hm|]. split; simpl.
  - now rewrite Hn, Hd.
  - eapply snapshotExpires_iso; eauto.
Qed.

Lemma capturePageCookies_ok (m : Map.t) (cs : option (list Cdp.Cookie)) :
  storeOk m -> storeOk (capturePageCookies m cs).
Proof.
  intros Hm. destruct cs as [cs|]; [|exact Hm].
  apply storeOk_fold; [|exact Hm]. intros; now apply onSnapshotCookie_ok.
Qed.

Lemma step_ok (m : Map.t) (ev : Event) : storeOk m -> storeOk (step m ev).
Proof.
  destruct ev; simpl; intros Hm;
    [now apply onRequest_ok | now apply onResponse_ok | now apply capturePageCookies_ok].
Qed.

Lemma run_ok (evs : list Event) : storeOk (run evs).
Proof. apply storeOk_fold; [intros; now apply step_ok | apply storeOk_empty]. Qed.

(** ** Snapshots and records that carry an expiry *)

Lemma onSnapshotCookie_keeps (m : Map.t) (c : Cdp.Cookie) (K : string) (r : Cookie) :
  Map.get K m = Some r -> JsString.otruthy (expires r) = true ->
  Map.get K (onSnapshotCookie m c) = Some r.
Proof.
  intros G T. unfold onSnapshotCookie.
  destruct (string_dec (keyOf (Cdp.domain c) (Cdp.name c)) K) as [->|Hne].
  - rewrite G. simpl. rewrite T. exact G.
  - destruct (lacksExpiry _); [|exact G].
    destruct (snapshotRecord c); [|exact G].
    now rewrite get_set_other.
Qed.

Lemma capturePageCookies_keeps (m : Map.t) (cs : option (list Cdp.Cookie))
    (K : string) (r : Cookie) :
  Map.get K m = Some r -> JsString.otruthy (expires r) = true ->
  Map.get K (capturePageCookies m cs) = Some r.
Proof.
  intros G T. destruct cs as [cs|]; [|exact G]. simpl.
  revert m G. induction cs as [|c cs IH]; intros m G; simpl; [exact G|].
  apply IH. now apply onSnapshotCookie_keeps.
Qed.

(** C3: on a store reached by any run, a record whose expiry is defined is
    left as it is by a whole snapshot, and a snapshot cookie for its key
    leaves the entire store as it is. *)
Theorem C3_snapshot_keeps_record_with_expiry
    (evs : list Event) (K : string) (r : Cookie) (cookies : option (list Cdp.Cookie)) :
  Map.get K (run evs) = Some r ->
  expires r <> None ->
  Map.get K (capturePageCookies (run evs) cookies) = Some r
  /\ (forall c, keyOf (Cdp.domain c) (Cdp.name c) = K ->
                onSnapshotCookie (run evs) c = run evs).
Proof.
  intros G Hdef.
  destruct (storeOk_get _ _ _ (run_ok evs) G) as [_ Hiso].
  pose proof (isoOrAbsent_truthy _ Hiso Hdef) as T.
  split; [now apply capturePageCookies_keeps|].
  intros c <-. unfold onSnapshotCookie. rewrite G. simpl. now rewrite T.
Qed.

(** ** Keys of the store *)

Lemma keys_fold {A : Type} (f : Map.t -> A -> Map.t) (g : A -> list string)
    (l : list A) (k : string) :
  (forall m a, In k (Map.keys (f m a)) <-> In k (Map.keys m) \/ In k (g a)) ->
  forall m, In k (Map.keys (fold_left f l m)) <-> In k (Map.keys m) \/ In k (flat_map g l).
Proof.
  intros Hf. induction l as [|a l IH]; intros m; simpl; [tauto|].
  rewrite IH, Hf, in_app_iff. tauto.
Qed.

Lemma keys_onRequest (m : Map.t) (reqUrl hostname c k : string) :
  In k (Map.keys (fold_left storeRequestCookie (parseCookieHeader hostname reqUrl c) m))
  <-> In k (Map.keys m) \/ In k (requestKeys hostname reqUrl c).
Proof.
  unfold requestKeys. revert m.
  induction (parseCookieHeader hostname reqUrl c) as [|r rs IH]; intros m; simpl; [tauto|].
  rewrite IH. unfold storeRequestCookie at 1. rewrite in_keys_set. intuition.
Qed.

Lemma keys_onSetCookie (now : Z) (respUrl hostname : string) (m : Map.t) (hdr k : string) :
  In k (Map.keys (onSetCookie now respUrl hostname m hdr))
  <-> In k (Map.keys m) \/ In k (setCookieKeys now hostname hdr).
Proof.
  unfold onSetCookie, setCookieKeys.
  destruct (parseSetCookie now hdr) as [| |n v e ma]; simpl; try tauto.
  unfold storeSetCookie.
  destruct (Map.get (keyOf hostname n) m); rewrite in_keys_set; intuition.
Qed.

Lemma keys_onSnapshotCookie (m : Map.t) (c : Cdp.Cookie) (k : string) :
  In k (Map.keys (onSnapshotCookie m c))
  <-> In k (Map.keys m) \/ In k (snapshotKeys c).
Proof.
  unfold onSnapshotCookie, snapshotKeys.
  destruct (lacksExpiry _) eqn:L.
  - destruct (snapshotRecord c); [rewrite in_keys_set|]; simpl; intuition.
  - assert (Hin : In (keyOf (Cdp.domain c) (Cdp.name c)) (Map.keys m)).
    { apply get_in_keys. destruct (Map.get _ m) as [ex|]; [eauto | discriminate]. }
    destruct (snapshotRecord c); simpl; [|tauto].
    split; [auto | intros [H|[<-|[]]]; auto].
Qed.

Lemma keys_step (m : Map.t) (ev : Event) (k : string) :
  In k (Map.keys (step m ev)) <-> In k (Map.keys m) \/ In k (observedKeys ev).
Proof.
  destruct ev as [u h [c|]|u h [|hdr|hs] now|[cs|]]; simpl; try tauto.
  - destruct (JsString.truthy c); [apply keys_onRequest | simpl; tauto].
  - destruct (JsString.truthy hdr); [apply keys_onSetCookie | simpl; tauto].
  - apply keys_fold. intros; apply keys_onSetCookie.
  - apply keys_fold. intros; apply keys_onSnapshotCookie.
Qed.

Lemma keys_run (evs : list Event) (k : string) :
  In k (Map.keys (run evs)) <-> In k (flat_map observedKeys evs).
Proof.
  unfold run. rewrite (keys_fold step observedKeys).
  - simpl. tauto.
  - intros; apply keys_step.
Qed.

Lemma length_run (evs : list Event) :
  List.length (run evs) = List.length (nodup string_dec (flat_map observedKeys evs)).
Proof.
  destruct (run_ok evs) as [Hnd _].
  replace (List.length (run evs)) with (List.length (Map.keys (run evs)))
    by (unfold Map.keys; apply length_map).
  apply Nat.le_antisymm; apply NoDup_incl_length;
    try exact Hnd; try apply NoDup_nodup; intros k Hk.
  - apply nodup_In. now apply keys_run.
  - apply keys_run. now apply nodup_In in Hk.
Qed.

Lemma buildReport_total (target : string) (now : Z) (m : Map.t) (rep : Report) :
  buildReport target now m = Done rep ->
  totalCookies rep = List.length m /\ allCookies rep = Map.values m.
Proof.
  unfold buildReport. destruct (groupByDomain [] (Map.values m)); [|discriminate].
  simpl. intros [= <-]. simpl. split; [apply length_map | reflexivity].
Qed.

(** C8: the store of any run has no two entries under one key, each entry
    sits under the key of its own domain and name, a key once present stays
    present, and [totalCookies] of the report is the number of distinct keys
    of the observations merged during the run. *)
Theorem C8_total_is_number_of_distinct_keys (evs : list Event) :
  NoDup (Map.keys (run evs))
  /\ (forall k c, In (k, c) (run evs) -> k = keyOf (domain c) (name c))
  /\ (forall ev k, In k (Map.keys (run evs)) -> In k (Map.keys (run (evs ++ [ev]))))
  /\ (forall target now rep,
         buildReport target now (run evs) = Done rep ->
         totalCookies rep
         = List.length (nodup string_dec (flat_map observedKeys evs))).
Proof.
  destruct (run_ok evs) as [Hnd Hall]. repeat split.
  - exact Hnd.
  - intros k c Hin. rewrite Forall_forall in Hall. exact (proj1 (Hall _ Hin)).
  - intros ev k Hk. unfold run. rewrite fold_left_app. simpl.
    apply keys_step. now left.
  - intros target now rep Hrep.
    rewrite (proj1 (buildReport_total _ _ _ _ Hrep)). apply length_run.
Qed.

(** ** The grouped view *)

Lemma viewOf_viewSpec (c : Cookie) : isoOrAbsent (expires c) -> viewOf c = viewSpec c.
Proof.
  unfold viewOf, viewSpec. intros [E|[t E]]; rewrite E; simpl; [reflexivity|].
  now rewrite toISOString_truthy.
Qed.

Lemma ownProperty_pushTo (d d' : string) (v : View.t) (o : list (string * list View.t)) :
  ownProperty d' (pushTo d v o)
  = if String.eqb d' d
    then option_map (fun vs => (vs ++ [v])%list) (ownProperty d o)
    else ownProperty d' o.
Proof.
  induction o as [|[d0 vs0] rest IH]; simpl.
  - now destruct (String.eqb d' d).
  - destruct (String.eqb d d0) eqn:E; simpl.
    + apply String.eqb_eq in E. subst d0.
      destruct (String.eqb d' d); reflexivity.
    + rewrite IH. destruct (String.eqb d' d0) eqn:E'; [|reflexivity].
      apply String.eqb_eq in E'. subst d0.
      destruct (String.eqb d' d) eqn:E''; [|reflexivity].
      apply String.eqb_eq in E''. subst d'. now rewrite String.eqb_refl in E.
Qed.

Lemma ownProperty_app (d d' : string) (vs : list View.t) (o : list (string * list View.t)) :
  ownProperty d' (o ++ [(d, vs)])
  = match ownProperty d' o with
    | Some x => Some x
    | None => if String.eqb d' d then Some vs else None
    end.
Proof.
  induction o as [|[d0 vs0] rest IH]; simpl; [reflexivity|].
  destruct (String.eqb d' d0); [reflexivity | exact IH].
Qed.

Lemma ownProperty_keys (d : string) (o : list (string * list View.t)) :
  ownProperty d o = None <-> ~ In d (map fst o).
Proof.
  induction o as [|[d0 vs0] rest IH]; simpl; [tauto|].
  destruct (String.eqb d d0) eqn:E.
  - apply String.eqb_eq in E. subst. split; [discriminate | intros H; exfalso; auto].
  - apply String.eqb_neq in E. rewrite IH. intuition congruence.
Qed.

Lemma keys_pushTo (d : string) (v : View.t) (o : list (string * list View.t)) :
  map fst (pushTo d v o) = map fst o.
Proof.
  induction o as [|[d0 vs0] rest IH]; simpl; [reflexivity|].
  destruct (String.eqb d d0); simpl; [reflexivity | now rewrite IH].
Qed.

Lemma in_ownProperty (d : string) (vs : list View.t) (o : list (string * list View.t)) :
  NoDup (map fst o) -> In (d, vs) o -> ownProperty d o = Some vs.
Proof.
  induction o as [|[d0 vs0] rest IH]; simpl; [tauto|].
  intros Hnd [H|H]; inversion Hnd as [|? ? Hout Hnd']; subst.
  - injection H as -> ->. now rewrite String.eqb_refl.
  - destruct (String.eqb d d0) eqn:E; [|auto].
    apply String.eqb_eq in E. subst d0. exfalso. apply Hout.
    change d with (fst (d, vs)). now apply in_map.
Qed.

Lemma ownProperty_in (d : string) (vs : list View.t) (o : list (string * list View.t)) :
  ownProperty d o = Some vs -> In (d, vs) o.
Proof.
  induction o as [|[d0 vs0] rest IH]; simpl; [discriminate|].
  destruct (String.eqb d d0) eqn:E; [|auto].
  apply String.eqb_eq in E. intros [= ->]. left. now subst.
Qed.

(** The views that the cookies of domain [d] add to the group of [d]. *)
Lemma groupByDomain_own (cs : list Cookie) :
  forall o o', groupByDomain o cs = Done o' ->
  (NoDup (map fst o) -> NoDup (map fst o'))
  /\ forall d,
       ownProperty d o'
       = let extra := map viewOf (filter (fun c => String.eqb (domain c) d) cs) in
         match ownProperty d o, extra with
         | Some vs, _ => Some (vs ++ extra)%list
         | None, [] => None
         | None, _ => Some extra
         end.
Proof.
  induction cs as [|c cs IH]; intros o o' H; simpl in H.
  - injection H as <-. split; [trivial|]. intros d. simpl.
    destruct (ownProperty d o); [now rewrite app_nil_r | reflexivity].
  - destruct (groupCookie o c) as [o1|] eqn:G; [|discriminate]. simpl in H.
    destruct (IH _ _ H) as [Hnd Hown]. unfold groupCookie in G.
    destruct (ownProperty (domain c) o) as [old|] eqn:Own.
    + injection G as <-. split.
      * intros Ho. apply Hnd. now rewrite keys_pushTo.
      * intros d. rewrite Hown, ownProperty_pushTo. simpl.
        rewrite (String.eqb_sym (domain c) d).
        destruct (String.eqb d (domain c)) eqn:E.
        -- apply String.eqb_eq in E. subst d. rewrite Own. simpl.
           now rewrite <- app_assoc.
        -- reflexivity.
    + destruct (existsb _ objectPrototype); [discriminate|]. injection G as <-. split.
      * intros Ho. apply Hnd. rewrite map_app. simpl.
        apply NoDup_app; [exact Ho | repeat constructor; auto |].
        intros x Hx [<-|[]]. now apply ownProperty_keys in Own.
      * intros d. rewrite Hown, ownProperty_app. simpl.
        rewrite (String.eqb_sym (domain c) d).
        destruct (String.eqb d (domain c)) eqn:E.
        -- apply String.eqb_eq in E. subst d. rewrite Own. reflexivity.
        -- destruct (ownProperty d o); reflexivity.
Qed.

(** C9: in a report built from the store of any run, the group of a domain
    is the list of its records, each shown with its own [expires] when that
    is defined and with the sentinel text when it is undefined; [allCookies]
    holds the records of the store as they are, and none of them has the
    sentinel as its [expires]. *)
Theorem C9_sentinel_only_in_grouped_view
    (evs : list Event) (target : string) (now : Z) (rep : Report) :
  buildReport target now (run evs) = Done rep ->
  allCookies rep = Map.values (run evs)
  /\ (forall d vs, In (d, vs) (cookiesByDomain rep) ->
        vs = map viewSpec
               (filter (fun c => String.eqb (domain c) d) (allCookies rep)))
  /\ (forall c, In c (allCookies rep) ->
        isoOrAbsent (expires c) /\ expires c <> Some sessionSentinel)
  /\ (forall c, In c (allCookies rep) ->
        exists vs, In (domain c, vs) (cookiesByDomain rep)).
Proof.
  intros Hrep.
  assert (Hiso : forall c, In c (Map.values (run evs)) -> isoOrAbsent (expires c)).
  { intros c Hin. apply in_map_iff in Hin as [[k c'] [<- Hin]].
    destruct (run_ok evs) as [_ Hall]. rewrite Forall_forall in Hall.
    exact (proj2 (Hall _ Hin)). }
  unfold buildReport in Hrep.
  destruct (groupByDomain [] (Map.values (run evs))) as [byDomain|] eqn:G; [|discriminate].
  simpl in Hrep. injection Hrep as <-. simpl. split; [reflexivity|]. split.
  - intros d vs Hin. destruct (groupByDomain_own _ _ _ G) as [Hnd Hown].
    pose proof (in_ownProperty _ _ _ (Hnd (NoDup_nil _)) Hin) as Own.
    rewrite Hown in Own. simpl in Own.
    assert (Hmap : map viewOf (filter (fun c => String.eqb (domain c) d) (Map.values (run evs)))
                   = map viewSpec (filter (fun c => String.eqb (domain c) d) (Map.values (run evs)))).
    { apply map_ext_in. intros c Hc. apply filter_In in Hc as [Hc _].
      now apply viewOf_viewSpec, Hiso. }
    rewrite <- Hmap.
    destruct (map viewOf _); [discriminate | now injection Own].
  - split.
    + intros c Hin. specialize (Hiso c Hin). split; [exact Hiso|].
      destruct Hiso as [->|[t ->]]; [discriminate|].
      intros [= H]. exact (toISOString_not_sentinel t H).
    + intros c Hin. destruct (groupByDomain_own _ _ _ G) as [_ Hown].
      specialize (Hown (domain c)). simpl in Hown.
      assert (Hf : In c (filter (fun c0 => String.eqb (domain c0) (domain c))
                           (Map.values (run evs))))
        by (apply filter_In; split; [exact Hin | apply String.eqb_refl]).
      destruct (filter _ (Map.values (run evs))) as [|c0 cs0]; [destruct Hf|].
      simpl in Hown. eexists. eapply ownProperty_in. exact Hown.
Qed.

(** ** Attributes of a Set-Cookie header *)

Lemma attributes_app (now : Z) (pre post : list string) :
  forall st, attributes now st (pre ++ post)
             = bindCaught (attributes now st pre) (fun st' => attributes now st' post).
Proof.
  induction pre as [|p pre IH]; intros st; simpl; [reflexivity|].
  destruct (attribute now st p) as [st1|]; simpl; [apply IH | reflexivity].
Qed.

Lemma attribute_expires (now : Z) (st : option string * option Z) (p : string) :
  isExpires p = true ->
  attribute now st p
  = match dateOfString (attributeText p) with
    | Some t => Done (Some (JsDate.toISOString t), snd st)
    | None => Threw
    end.
Proof. unfold isExpires, attribute, attributeText. now intros ->. Qed.

Lemma attribute_max_age (now : Z) (st : option string * option Z) (p : string) :
  isExpires p = false -> isMaxAge p = true ->
  attribute now st p
  = match JsNumber.parseInt (attributeText p) with
    | Some seconds =>
        if JsString.otruthy (fst st) then Done (fst st, Some seconds)
        else match JsDate.addSeconds now seconds with
             | Some t => Done (Some (JsDate.toISOString t), Some seconds)
             | None => Threw
             end
    | None => Done st
    end.
Proof. unfold isExpires, isMaxAge, attribute, attributeText. now intros -> ->. Qed.

Lemma attribute_other (now : Z) (st : option string * option Z) (p : string) :
  isExpires p = false -> isMaxAge p = false -> attribute now st p = Done st.
Proof. unfold isExpires, isMaxAge, attribute. now intros -> ->. Qed.

(** A [Max-Age] whose text is not an integer leaves both variables alone. *)
Lemma attribute_max_age_unparseable (now : Z) (st : option string * option Z) (p : string) :
  isExpires p = false -> isMaxAge p = true ->
  JsNumber.parseInt (attributeText p) = None ->
  attribute now st p = Done st.
Proof. intros He Hm Hp. now rewrite attribute_max_age, Hp. Qed.

(** Once [expires] is set, only another [Expires] attribute changes it. *)
Lemma attribute_keeps_expires (now : Z) (st st' : option string * option Z) (p : string) :
  isExpires p = false -> JsString.otruthy (fst st) = true ->
  attribute now st p = Done st' -> fst st' = fst st.
Proof.
  intros He T H. destruct (isMaxAge p) eqn:Hm.
  - rewrite attribute_max_age in H by assumption. rewrite T in H.
    destruct (JsNumber.parseInt _); now injection H as <-.
  - rewrite attribute_other in H by assumption. now injection H as <-.
Qed.

Lemma attributes_keep_expires (now : Z) (parts : list string) :
  forall st st',
    (forall p, In p parts -> isExpires p = false) ->
    JsString.otruthy (fst st) = true ->
    attributes now st parts = Done st' -> fst st' = fst st.
Proof.
  induction parts as [|p rest IH]; intros st st' Hno T H; simpl in H.
  - now injection H as <-.
  - destruct (attribute now st p) as [st1|] eqn:E; [|discriminate]. simpl in H.
    assert (F : fst st1 = fst st)
      by (eapply attribute_keeps_expires; eauto; apply Hno; now left).
    rewrite <- F. eapply IH; eauto.
    + intros q Hq. apply Hno. now right.
    + now rewrite F.
Qed.

(** Attributes that are neither [Expires] nor a readable [Max-Age] leave
    the two variables as they are. *)
Lemma attributes_idle (now : Z) (parts : list string) (st : option string * option Z) :
  (forall p, In p parts -> isExpires p = false) ->
  (forall p, In p parts -> isMaxAge p = true ->
             JsNumber.parseInt (attributeText p) = None) ->
  attributes now st parts = Done st.
Proof.
  induction parts as [|p rest IH]; intros He Hm; simpl; [reflexivity|].
  assert (A : attribute now st p = Done st).
  { destruct (isMaxAge p) eqn:M.
    - apply attribute_max_age_unparseable; auto. apply He; now left.
      apply Hm; [now left | exact M].
    - apply attribute_other; auto. apply He; now left. }
  rewrite A. simpl. apply IH; intros q Hq; [apply He | apply Hm]; now right.
Qed.

(** [maxAge], once set, stays set. *)
Lemma attribute_keeps_maxAge (now : Z) (st st' : option string * option Z) (p : string) :
  attribute now st p = Done st' -> snd st <> None -> snd st' <> None.
Proof.
  unfold attribute.
  destruct (JsString.startsWith "expires=" _).
  - destruct (dateOfString _); [|discriminate]. now intros [= <-].
  - destruct (JsString.startsWith "max-age=" _); [|now intros [= <-]].
    destruct (JsNumber.parseInt _); [|now intros [= <-]].
    destruct (JsString.otruthy _); [intros [= <-]; simpl; discriminate|].
    destruct (JsDate.addSeconds _ _); [|discriminate].
    intros [= <-]; simpl; discriminate.
Qed.

Lemma attributes_keep_maxAge (now : Z) (parts : list string) :
  forall st st', snd st <> None ->
                 attributes now st parts = Done st' -> snd st' <> None.
Proof.
  induction parts as [|p rest IH]; intros st st' Hs H; simpl in H.
  - now injection H as <-.
  - destruct (attribute now st p) as [st1|] eqn:A; [|discriminate].
    simpl in H. eapply IH; [|exact H]. eapply attribute_keeps_maxAge; eauto.
Qed.

Lemma parseSetCookie_observed (now : Z) (hdr n : string) (v e : option string) (ma : option Z) :
  parseSetCookie now hdr = Observed n v e ma ->
  attributes now (None, None) (tl (JsString.split ";" hdr)) = Done (e, ma).
Proof.
  unfold parseSetCookie. destruct (negb _); [discriminate|].
  destruct (attributes _ _ _) as [[e' ma']|]; [|discriminate].
  now intros [= _ _ -> ->].
Qed.

(** C6: in the observation read from a Set-Cookie header, [expires] is the
    date of the last [Expires] attribute wherever the [Max-Age] attributes
    stand, before it or after it; when the header has no [Expires]
    attribute, [expires] is the clock plus the seconds of the first
    readable [Max-Age]. *)
Theorem C6_expires_wins_over_max_age
    (now : Z) (hdr n : string) (v e : option string) (ma : option Z) :
  parseSetCookie now hdr = Observed n v e ma ->
  (forall pre ePart post d,
      tl (JsString.split ";" hdr) = (pre ++ ePart :: post)%list ->
      isExpires ePart = true ->
      dateOfString (attributeText ePart) = Some d ->
      (forall p, In p post -> isExpires p = false) ->
      e = Some (JsDate.toISOString d))
  /\ (forall pre mPart post seconds,
      tl (JsString.split ";" hdr) = (pre ++ mPart :: post)%list ->
      (forall p, In p (tl (JsString.split ";" hdr)) -> isExpires p = false) ->
      isMaxAge mPart = true ->
      JsNumber.parseInt (attributeText mPart) = Some seconds ->
      (forall p, In p pre -> isMaxAge p = true ->
                 JsNumber.parseInt (attributeText p) = None) ->
      e = Some (JsDate.toISOString (now + 1000 * seconds)) /\ ma <> None).
Proof.
  intros Hobs. apply parseSetCookie_observed in Hobs. split.
  - intros pre ePart post d Hsplit HE Hd Hpost.
    rewrite Hsplit, attributes_app in Hobs.
    destruct (attributes now (None, None) pre) as [st1|]; [|discriminate].
    simpl in Hobs. rewrite attribute_expires, Hd in Hobs by assumption. simpl in Hobs.
    apply attributes_keep_expires in Hobs; [exact Hobs | exact Hpost |].
    apply toISOString_truthy.
  - intros pre mPart post seconds Hsplit HnoE HM Hint Hpre.
    assert (HnoE' : forall p, In p (pre ++ mPart :: post)%list -> isExpires p = false)
      by (now rewrite <- Hsplit).
    rewrite Hsplit, attributes_app in Hobs.
    rewrite attributes_idle in Hobs
      by (auto; intros p Hp; apply HnoE', in_or_app; now left).
    cbn [bindCaught attributes] in Hobs.
    rewrite attribute_max_age, Hint in Hobs
      by (auto; apply HnoE', in_or_app; right; now left).
    cbn [fst snd JsString.otruthy] in Hobs.
    unfold JsDate.addSeconds, JsDate.TimeClip in Hobs.
    destruct (Z.abs (now + 1000 * seconds) <=? JsDate.maxTime); [|discriminate].
    cbn [bindCaught] in Hobs. split.
    + apply attributes_keep_expires in Hobs; [exact Hobs | | apply toISOString_truthy].
      intros p Hp. apply HnoE', in_or_app. right. now right.
    + change ma with (snd (e, ma)).
      eapply attributes_keep_maxAge; [|exact Hobs]. cbn [snd]. discriminate.
Qed.

(** C7: a Set-Cookie header with an [Expires] attribute whose text is not a
    date is not read as an observation: the store is left as it was, so
    neither the name nor the value of that cookie is recorded; the headers
    that follow it in the same response are still handled. *)
Theorem C7_unparseable_expires_drops_cookie
    (now : Z) (respUrl hostname hdr : string) (m : Map.t)
    (pre post rest : list string) (ePart : string) :
  tl (JsString.split ";" hdr) = (pre ++ ePart :: post)%list ->
  isExpires ePart = true ->
  dateOfString (attributeText ePart) = None ->
  (parseSetCookie now hdr = Malformed \/ parseSetCookie now hdr = NoName)
  /\ onSetCookie now respUrl hostname m hdr = m
  /\ onResponse m respUrl hostname (ManySetCookie (hdr :: rest)) now
     = onResponse m respUrl hostname (ManySetCookie rest) now.
Proof.
  intros Hsplit HE Hd.
  assert (P : parseSetCookie now hdr = Malformed \/ parseSetCookie now hdr = NoName).
  { unfold parseSetCookie. destruct (negb _); [now right|]. left.
    rewrite Hsplit, attributes_app.
    destruct (attributes now (None, None) pre) as [st1|]; [|reflexivity].
    simpl. now rewrite attribute_expires, Hd. }
  assert (S : onSetCookie now respUrl hostname m hdr = m)
    by (unfold onSetCookie; destruct P as [-> | ->]; reflexivity).
  repeat split; [exact P | exact S | simpl; now rewrite S].
Qed.

(** ** Request headers against Set-Cookie headers *)

(** A request-header observation is stored as it is, whatever the store
    held under its key. *)
Lemma storeRequestCookie_get (m : Map.t) (c : Cookie) :
  Map.get (keyOf (domain c) (name c)) (storeRequestCookie m c) = Some c.
Proof. apply get_set_same. Qed.

(** C1 (amended): when a request-header observation [A], which carries no
    expiry, is merged first and a Set-Cookie observation with the expiry [E]
    for the same key [K] second, the record at [K] ends with the expiry [E]
    and the [maxAge] of the header, and keeps the name, value, domain and
    url of [A]. *)
Theorem C1_request_then_set_cookie_has_expiry
    (m : Map.t) (now : Z) (respUrl reqUrl hostname segment hdr n : string)
    (v : option string) (E : string) (ma : option Z) :
  parseSetCookie now hdr = Observed n v (Some E) ma ->
  segmentName segment = n ->
  expires (requestCookie hostname reqUrl segment) = None
  /\ Map.get (keyOf hostname n)
       (onSetCookie now respUrl hostname
          (storeRequestCookie m (requestCookie hostname reqUrl segment)) hdr)
     = Some {| name := n;
               value := value (requestCookie hostname reqUrl segment);
               domain := hostname; url := reqUrl; path := None;
               expires := Some E; maxAge := ma;
               httpOnly := None; secure := None; sameSite := None |}.
Proof.
  intros P Hn. unfold segmentName in Hn.
  assert (Hname : name (requestCookie hostname reqUrl segment) = n) by exact Hn.
  split; [reflexivity|].
  unfold onSetCookie. rewrite P. unfold storeSetCookie, storeRequestCookie.
  cbn [domain]. rewrite Hname, get_set_same, get_set_same.
  cbn [name domain url path httpOnly secure sameSite requestCookie]. now rewrite Hn.
Qed.

(** ** Snapshots against records without expiry *)

Lemma numberTruthy_zero (q : Q) : (q == 0)%Q -> numberTruthy q = false.
Proof.
  intros H. unfold numberTruthy. apply negb_false_iff. now apply Qeq_bool_iff.
Qed.

Lemma numberTruthy_nonzero (q : Q) : ~ (q == 0)%Q -> numberTruthy q = true.
Proof.
  intros H. unfold numberTruthy. apply negb_true_iff.
  destruct (Qeq_bool q 0) eqn:E; [|reflexivity]. now apply Qeq_bool_iff in E.
Qed.

Lemma lacksExpiry_absent (existing : Cookie) :
  expires existing = None -> lacksExpiry (Some existing) = true.
Proof. intros H. unfold lacksExpiry. now rewrite H. Qed.

(** C2 (amended): a snapshot observation merged onto a record that lacks an
    expiry replaces that record by the record built from the snapshot alone;
    with the snapshot's [expires] equal to 0 the record stays without
    expiry and holds the value, path and flags that the snapshot reports. *)
Theorem C2_snapshot_replaces_record_without_expiry
    (m : Map.t) (c : Cdp.Cookie) (existing : Cookie) :
  Map.get (keyOf (Cdp.domain c) (Cdp.name c)) m = Some existing ->
  expires existing = None ->
  (forall r, snapshotRecord c = Done r ->
             Map.get (keyOf (Cdp.domain c) (Cdp.name c)) (onSnapshotCookie m c) = Some r)
  /\ (forall q, Cdp.expires c = Some q -> (q == 0)%Q ->
        Map.get (keyOf (Cdp.domain c) (Cdp.name c)) (onSnapshotCookie m c)
        = Some {| name := Cdp.name c; value := Some (Cdp.value c);
                  domain := Cdp.domain c; url := snapshotUrl (Cdp.domain c);
                  path := Some (Cdp.path c); expires := None; maxAge := None;
                  httpOnly := Some (Cdp.httpOnly c);
                  secure := Some (Cdp.secure c);
                  sameSite := Cdp.sameSite c |}).
Proof.
  intros G Hno. split.
  - intros r R. unfold onSnapshotCookie.
    rewrite G, (lacksExpiry_absent _ Hno), R. apply get_set_same.
  - intros q Hq Hz. unfold onSnapshotCookie.
    rewrite G, (lacksExpiry_absent _ Hno).
    unfold snapshotRecord, snapshotExpires. rewrite Hq, (numberTruthy_zero _ Hz).
    cbn [bindCaught]. apply get_set_same.
Qed.

(** ** Segments of a Cookie header *)

Lemma append_inv_head (p a b : string) : p ++ a = p ++ b -> a = b.
Proof.
  induction p as [|x p IH]; simpl; [trivial|]. intros [= H]. now apply IH.
Qed.

Lemma keyOf_inj_name (d n n' : string) : keyOf d n = keyOf d n' -> n = n'.
Proof.
  unfold keyOf. intros H. apply append_inv_head in H.
  now apply (append_inv_head "|") in H.
Qed.

Lemma split_app (c : ascii) (a b : string) :
  JsString.contains c a = false ->
  JsString.split c (a ++ String c b) = a :: JsString.split c b.
Proof.
  induction a as [|x a IH]; intros H; simpl.
  - now rewrite Ascii.eqb_refl.
  - rewrite contains_cons in H. apply orb_false_iff in H as [Hx Ha].
    rewrite Ascii.eqb_sym, Hx, (IH Ha). reflexivity.
Qed.

(** After the segments [cs] are stored, the key of each of them holds the
    last of them that has that key. *)
Lemma fold_request_get (Q : Cookie -> Prop) (k : string) (cs : list Cookie) :
  (forall c, In c cs -> keyOf (domain c) (name c) = k -> Q c) ->
  forall m,
    (exists c, In c cs /\ keyOf (domain c) (name c) = k)
    \/ (exists r, Map.get k m = Some r /\ Q r) ->
    exists r, Map.get k (fold_left storeRequestCookie cs m) = Some r /\ Q r.
Proof.
  induction cs as [|c cs IH]; intros HQ m H; simpl.
  - destruct H as [[c [[] _]]|H]; exact H.
  - apply IH; [intros c' Hc'; apply HQ; now right|].
    unfold storeRequestCookie at 1.
    destruct (string_dec (keyOf (domain c) (name c)) k) as [Hk|Hk].
    + right. exists c. rewrite Hk, get_set_same. split; [reflexivity|].
      apply HQ; [now left | exact Hk].
    + rewrite get_set_other by exact Hk.
      destruct H as [[c' [[<-|Hin] Hc']]|H]; [contradiction | left; eauto | now right].
Qed.

(** C4 (amended): every segment of a Cookie header from which line 91 reads
    a non-empty name yields one observation, and after the request the
    store holds a record with that name, the request's host name and no
    expiry under its key; a segment without [=] is such a segment, its name
    is the trimmed segment and its value is undefined.  The observations
    with a name are as many as the segments with a name. *)
Theorem C4_every_named_segment_is_observed
    (m : Map.t) (reqUrl hostname h segment : string) :
  In segment (JsString.split ";" h) ->
  segmentName segment <> EmptyString ->
  In (requestCookie hostname reqUrl segment) (parseCookieHeader hostname reqUrl h)
  /\ name (requestCookie hostname reqUrl segment) = segmentName segment
  /\ (exists r,
        Map.get (keyOf hostname (segmentName segment))
          (onRequest m reqUrl hostname (Some h)) = Some r
        /\ name r = segmentName segment /\ domain r = hostname
        /\ expires r = None)
  /\ (JsString.contains "=" segment = false ->
        segmentName segment = JsString.trim segment
        /\ value (requestCookie hostname reqUrl segment) = None)
  /\ List.length (filter (fun c => JsString.truthy (name c))
                    (parseCookieHeader hostname reqUrl h))
     = List.length (filter (fun s => JsString.truthy (segmentName s))
                      (JsString.split ";" h)).
Proof.
  intros Hin Hname.
  assert (Hobs : In (requestCookie hostname reqUrl segment)
                    (parseCookieHeader hostname reqUrl h))
    by (unfold parseCookieHeader; now apply in_map).
  assert (Hh : JsString.truthy h = true).
  { destruct h; [|reflexivity]. destruct Hin as [<-|[]]. now elim Hname. }
  split; [exact Hobs|]. split; [reflexivity|]. split; [|split].
  - unfold onRequest. rewrite Hh.
    destruct (fold_request_get
                (fun r => name r = segmentName segment /\ domain r = hostname
                          /\ expires r = None)
                (keyOf hostname (segmentName segment))
                (parseCookieHeader hostname reqUrl h)) with (m := m)
      as [r [G HQ]].
    + intros c Hc Hk. unfold parseCookieHeader in Hc.
      apply in_map_iff in Hc as [s [<- _]]. cbn [domain name requestCookie] in *.
      apply keyOf_inj_name in Hk. repeat split. exact Hk.
    + left. exists (requestCookie hostname reqUrl segment). split; [exact Hobs | reflexivity].
    + exists r. split; [exact G | exact HQ].
  - intros Hno. unfold segmentName. cbn [value requestCookie].
    rewrite (split_without "=" (JsString.trim segment)) by now apply trim_without.
    split; reflexivity.
  - unfold parseCookieHeader. clear Hin Hobs Hh Hname.
    induction (JsString.split ";" h) as [|s segs IH]; [reflexivity|].
    cbn [map filter]. change (name (requestCookie hostname reqUrl s)) with (segmentName s).
    destruct (JsString.truthy (segmentName s)); cbn [List.length]; now rewrite IH.
Qed.

(** C5: when the trimmed segment is [n=v1=rest], the observation has the
    name [n] and the value [v1], the text between the first two [=] signs,
    and not the remainder [v1=rest] after the first one. *)
Theorem C5_value_cut_at_second_equals
    (hostname reqUrl segment n v1 rest : string) :
  JsString.trim segment = n ++ "=" ++ v1 ++ "=" ++ rest ->
  JsString.contains "=" n = false ->
  JsString.contains "=" v1 = false ->
  name (requestCookie hostname reqUrl segment) = n
  /\ value (requestCookie hostname reqUrl segment) = Some v1
  /\ value (requestCookie hostname reqUrl segment) <> Some (v1 ++ "=" ++ rest).
Proof.
  intros Ht Hn Hv. cbn [name value requestCookie]. rewrite Ht.
  change (n ++ "=" ++ v1 ++ "=" ++ rest) with (n ++ String "=" (v1 ++ String "=" rest)).
  rewrite (split_app "=" n) by exact Hn. rewrite (split_app "=" v1) by exact Hv.
  cbn [hd nth_error]. repeat split. intros [= H].
  assert (C : JsString.contains "=" (v1 ++ String "=" rest) = true)
    by (rewrite contains_app, contains_cons, Ascii.eqb_refl; apply orb_true_r).
  rewrite <- H, Hv in C. discriminate C.
Qed.

(** ** Negative expiry in a snapshot *)

Lemma ofNumber_negative (q : Q) :
  (q < 0)%Q -> (inject_Z (- 8640000000000) <= q)%Q ->
  exists t, JsDate.ofNumber (q * 1000) = Some t
            /\ t <= 0 /\ ((q <= - (1 # 1000))%Q -> t < 0).
Proof.
  intros Hneg Hlow. destruct q as [a b].
  unfold Qlt, Qle in *. cbn [Qnum Qden inject_Z Qopp] in *.
  unfold JsDate.ofNumber.
  assert (In1 : Qle_bool (inject_Z (- JsDate.maxTime)) ((a # b) * 1000) = true).
  { apply Qle_bool_iff. unfold Qle, Qmult, JsDate.maxTime. cbn [Qnum Qden inject_Z].
    rewrite Pos.mul_1_r. lia. }
  assert (In2 : Qle_bool ((a # b) * 1000) (inject_Z JsDate.maxTime) = true).
  { apply Qle_bool_iff. unfold Qle, Qmult, JsDate.maxTime. cbn [Qnum Qden inject_Z]. lia. }
  rewrite In1, In2. cbn [andb]. eexists. split; [reflexivity|].
  unfold Qmult. cbn [Qnum Qden]. rewrite Pos.mul_1_r.
  assert (Ha : a < 0) by lia.
  replace (a * 1000) with (- (- a * 1000)) by lia.
  rewrite Z.quot_opp_l by lia.
  rewrite Z.quot_div_nonneg by lia.
  split.
  - assert (0 <= (- a * 1000) / Z.pos b) by (apply Z.div_pos; lia). lia.
  - intros Hms.
    assert (0 < (- a * 1000) / Z.pos b) by (apply Z.div_str_pos; lia). lia.
Qed.

(** C10 (amended): the record built from a snapshot cookie has no expiry
    exactly when the cookie's [expires] is absent or equal to 0; for a
    negative [expires] of at least -8640000000000 seconds, merged onto a key
    that has no record or a record without expiry, the stored record has a
    defined [expires], the ISO text of a time value that is not after the
    epoch, and before it as soon as [expires] is at most -0.001. *)
Theorem C10_negative_expires_is_a_date (c : Cdp.Cookie) :
  (forall r, snapshotRecord c = Done r ->
     (expires r = None
      <-> Cdp.expires c = None \/ exists q, Cdp.expires c = Some q /\ (q == 0)%Q))
  /\ (forall m q,
        Cdp.expires c = Some q ->
        (q < 0)%Q ->
        (inject_Z (- 8640000000000) <= q)%Q ->
        lacksExpiry (Map.get (keyOf (Cdp.domain c) (Cdp.name c)) m) = true ->
        exists r t,
          Map.get (keyOf (Cdp.domain c) (Cdp.name c)) (onSnapshotCookie m c) = Some r
          /\ expires r = Some (JsDate.toISOString t)
          /\ t <= 0
          /\ ((q <= - (1 # 1000))%Q -> t < 0)).
Proof.
  split.
  - intros r R. destruct (snapshotRecord_fields _ _ R) as (_ & _ & _ & E).
    unfold snapshotExpires in E. destruct (Cdp.expires c) as [q|].
    + destruct (numberTruthy q) eqn:T.
      * destruct (JsDate.ofNumber (q * 1000)); [|discriminate].
        injection E as E. rewrite <- E. split; [discriminate|].
        intros [H|[q' [[= <-] Hz]]]; [discriminate|].
        rewrite (numberTruthy_zero _ Hz) in T. discriminate.
      * injection E as E. rewrite <- E. split; [|reflexivity].
        intros _. right. exists q. split; [reflexivity|].
        unfold numberTruthy in T. apply negb_false_iff in T.
        now apply Qeq_bool_iff.
    + injection E as E. rewrite <- E. split; [now left | reflexivity].
  - intros m q Hq Hneg Hlow Hlacks.
    destruct (ofNumber_negative q Hneg Hlow) as [t (Ht & Hle & Hlt)].
    assert (Hnz : numberTruthy q = true).
    { apply numberTruthy_nonzero. intros Hz. rewrite Hz in Hneg. discriminate. }
    unfold onSnapshotCookie. rewrite Hlacks.
    unfold snapshotRecord, snapshotExpires. rewrite Hq, Hnz, Ht. cbn [bindCaught].
    eexists. exists t. rewrite get_set_same. repeat split; assumption.
Qed.

(** * Further properties of the handlers *)

(** ** Order of the records *)

Lemma keys_set_addKey (k : string) (v : Cookie) (m : Map.t) :
  Map.keys (Map.set k v m) = addKey (Map.keys m) k.
Proof. apply keys_set. Qed.

Lemma addKey_present (seen : list string) (k : string) :
  In k seen -> addKey seen k = seen.
Proof. intros H. unfold addKey. destruct (in_dec string_dec k seen); [reflexivity | contradiction]. Qed.

Lemma keys_fold_addKey {A : Type} (f : Map.t -> A -> Map.t) (g : A -> list string)
    (l : list A) :
  (forall m a, Map.keys (f m a) = fold_left addKey (g a) (Map.keys m)) ->
  forall m, Map.keys (fold_left f l m) = fold_left addKey (flat_map g l) (Map.keys m).
Proof.
  intros Hf. induction l as [|a l IH]; intros m; simpl; [reflexivity|].
  now rewrite IH, Hf, fold_left_app.
Qed.

Lemma order_onRequest (m : Map.t) (reqUrl hostname c : string) :
  Map.keys (fold_left storeRequestCookie (parseCookieHeader hostname reqUrl c) m)
  = fold_left addKey (requestKeys hostname reqUrl c) (Map.keys m).
Proof.
  unfold requestKeys. revert m.
  induction (parseCookieHeader hostname reqUrl c) as [|r rs IH]; intros m; simpl; [reflexivity|].
  rewrite IH. unfold storeRequestCookie at 1. now rewrite keys_set_addKey.
Qed.

Lemma order_onSetCookie (now : Z) (respUrl hostname : string) (m : Map.t) (hdr : string) :
  Map.keys (onSetCookie now respUrl hostname m hdr)
  = fold_left addKey (setCookieKeys now hostname hdr) (Map.keys m).
Proof.
  unfold onSetCookie, setCookieKeys.
  destruct (parseSetCookie now hdr) as [| |n v e ma]; simpl; try reflexivity.
  unfold storeSetCookie.
  destruct (Map.get (keyOf hostname n) m); apply keys_set_addKey.
Qed.

Lemma order_onSnapshotCookie (m : Map.t) (c : Cdp.Cookie) :
  Map.keys (onSnapshotCookie m c) = fold_left addKey (snapshotKeys c) (Map.keys m).
Proof.
  unfold onSnapshotCookie, snapshotKeys.
  destruct (lacksExpiry _) eqn:L.
  - destruct (snapshotRecord c); simpl; [apply keys_set_addKey | reflexivity].
  - destruct (snapshotRecord c); simpl; [|reflexivity].
    symmetry. apply addKey_present. apply get_in_keys.
    destruct (Map.get _ m) as [ex|]; [eauto | discriminate].
Qed.

Lemma order_step (m : Map.t) (ev : Event) :
  Map.keys (step m ev) = fold_left addKey (observedKeys ev) (Map.keys m).
Proof.
  destruct ev as [u h [c|]|u h [|hdr|hs] now|[cs|]]; simpl; try reflexivity.
  - destruct (JsString.truthy c); [apply order_onRequest | reflexivity].
  - destruct (JsString.truthy hdr); [apply order_onSetCookie | reflexivity].
  - apply keys_fold_addKey. intros; apply order_onSetCookie.
  - apply keys_fold_addKey. intros; apply order_onSnapshotCookie.
Qed.

(** X1: the keys of the store, and with them the records of [allCookies],
    stand in the order in which their keys were first observed. *)
Theorem allCookies_in_first_observation_order
    (evs : list Event) (target : string) (now : Z) (rep : Report) :
  buildReport target now (run evs) = Done rep ->
  Map.keys (run evs) = firstOccurrences (flat_map observedKeys evs)
  /\ map (fun c => keyOf (domain c) (name c)) (allCookies rep)
     = firstOccurrences (flat_map observedKeys evs).
Proof.
  intros Hrep.
  assert (K : Map.keys (run evs) = firstOccurrences (flat_map observedKeys evs)).
  { unfold run, firstOccurrences.
    apply (keys_fold_addKey step observedKeys evs order_step Map.empty). }
  split; [exact K|].
  rewrite (proj2 (buildReport_total _ _ _ _ Hrep)), <- K.
  destruct (run_ok evs) as [_ Hall]. unfold Map.values, Map.keys.
  rewrite map_map. apply map_ext_in. intros kc Hin.
  rewrite Forall_forall in Hall. symmetry. exact (proj1 (Hall _ Hin)).
Qed.

(** ** What an event leaves alone *)

Lemma get_fold_frame {A : Type} (f : Map.t -> A -> Map.t) (g : A -> list string)
    (l : list A) (k : string) :
  (forall m a, ~ In k (g a) -> Map.get k (f m a) = Map.get k m) ->
  forall m, ~ In k (flat_map g l) -> Map.get k (fold_left f l m) = Map.get k m.
Proof.
  intros Hf. induction l as [|a l IH]; intros m Hout; simpl; [reflexivity|].
  simpl in Hout. rewrite in_app_iff in Hout.
  rewrite IH by tauto. apply Hf. tauto.
Qed.

Lemma frame_onRequest (m : Map.t) (reqUrl hostname c k : string) :
  ~ In k (requestKeys hostname reqUrl c) ->
  Map.get k (fold_left storeRequestCookie (parseCookieHeader hostname reqUrl c) m)
  = Map.get k m.
Proof.
  unfold requestKeys. revert m.
  induction (parseCookieHeader hostname reqUrl c) as [|r rs IH]; intros m Hout; simpl;
    [reflexivity|].
  simpl in Hout. rewrite IH by tauto.
  unfold storeRequestCookie. apply get_set_other. tauto.
Qed.

Lemma frame_onSetCookie (now : Z) (respUrl hostname : string) (m : Map.t) (hdr k : string) :
  ~ In k (setCookieKeys now hostname hdr) ->
  Map.get k (onSetCookie now respUrl hostname m hdr) = Map.get k m.
Proof.
  unfold onSetCookie, setCookieKeys.
  destruct (parseSetCookie now hdr) as [| |n v e ma]; simpl; try reflexivity.
  intros Hout. unfold storeSetCookie.
  destruct (Map.get (keyOf hostname n) m); apply get_set_other; tauto.
Qed.

Lemma frame_onSnapshotCookie (m : Map.t) (c : Cdp.Cookie) (k : string) :
  ~ In k (snapshotKeys c) -> Map.get k (onSnapshotCookie m c) = Map.get k m.
Proof.
  unfold onSnapshotCookie, snapshotKeys.
  destruct (lacksExpiry _); [|reflexivity].
  destruct (snapshotRecord c); simpl; [|reflexivity].
  intros Hout. apply get_set_other. tauto.
Qed.

(** X2: an event changes no record but those under the keys of its own
    observations. *)
Theorem event_touches_only_its_keys (m : Map.t) (ev : Event) (k : string) :
  ~ In k (observedKeys ev) -> Map.get k (step m ev) = Map.get k m.
Proof.
  destruct ev as [u h [c|]|u h [|hdr|hs] now|[cs|]]; simpl; try reflexivity.
  - destruct (JsString.truthy c); [apply frame_onRequest | reflexivity].
  - destruct (JsString.truthy hdr); [apply frame_onSetCookie | reflexivity].
  - apply get_fold_frame. intros; now apply frame_onSetCookie.
  - apply get_fold_frame. intros; now apply frame_onSnapshotCookie.
Qed.

(** ** Request headers: the last segment of a name is the one recorded *)

Lemma get_fold_request (k : string) (cs : list Cookie) :
  forall m,
    Map.get k (fold_left storeRequestCookie cs m)
    = match lastWithKey k cs with
      | Some c => Some c
      | None => Map.get k m
      end.
Proof.
  induction cs as [|c cs IH]; intros m; simpl; [reflexivity|].
  rewrite IH. destruct (lastWithKey k cs); [reflexivity|].
  unfold storeRequestCookie.
  destruct (String.eqb (keyOf (domain c) (name c)) k) eqn:E.
  - apply String.eqb_eq in E. rewrite E. apply get_set_same.
  - apply String.eqb_neq in E. now apply get_set_other.
Qed.

Lemma lastWithKey_in (k : string) (cs : list Cookie) (c : Cookie) :
  lastWithKey k cs = Some c -> In c cs /\ keyOf (domain c) (name c) = k.
Proof.
  induction cs as [|c0 cs IH]; simpl; [discriminate|].
  destruct (lastWithKey k cs) as [c'|].
  - intros [= <-]. destruct (IH eq_refl). auto.
  - destruct (String.eqb _ k) eqn:E; [|discriminate].
    apply String.eqb_eq in E. intros [= <-]. auto.
Qed.

(** X3: after a request with a cookie header, a key holds the observation
    of the last segment of the header that has this key, with no expiry,
    max-age, path or flags whatever the store held before; the other keys
    hold what they held. *)
Theorem request_records_last_segment
    (m : Map.t) (reqUrl hostname h k : string) :
  JsString.truthy h = true ->
  Map.get k (onRequest m reqUrl hostname (Some h))
  = match lastWithKey k (parseCookieHeader hostname reqUrl h) with
    | Some c => Some c
    | None => Map.get k m
    end
  /\ (forall c, lastWithKey k (parseCookieHeader hostname reqUrl h) = Some c ->
        k = keyOf hostname (name c)
        /\ (exists segment, In segment (JsString.split ";" h)
                            /\ c = requestCookie hostname reqUrl segment)
        /\ expires c = None /\ maxAge c = None /\ path c = None
        /\ httpOnly c = None /\ secure c = None /\ sameSite c = None).
Proof.
  intros Hh. split.
  - unfold onRequest. rewrite Hh. apply get_fold_request.
  - intros c Hc. apply lastWithKey_in in Hc as [Hin Hk].
    unfold parseCookieHeader in Hin. apply in_map_iff in Hin as [segment [<- Hseg]].
    split; [now rewrite <- Hk|]. split; [eauto|]. repeat split.
Qed.

(** ** Handling a request twice *)

Lemma get_none_keys (k : string) (m : Map.t) :
  Map.get k m = None <-> ~ In k (Map.keys m).
Proof.
  rewrite get_in_keys. split.
  - intros H [v Hv]. congruence.
  - intros H. destruct (Map.get k m) as [v|]; [|reflexivity]. exfalso. eauto.
Qed.

(** Two stores with the same keys in the same order and the same record
    under each key are the same store. *)
Lemma store_ext (m1 : Map.t) :
  forall m2,
    NoDup (Map.keys m1) -> Map.keys m1 = Map.keys m2 ->
    (forall k, Map.get k m1 = Map.get k m2) -> m1 = m2.
Proof.
  induction m1 as [|[k1 v1] rest1 IH]; intros [|[k2 v2] rest2] Hnd Hk Hg;
    try discriminate; [reflexivity|].
  simpl in Hk. injection Hk as Hk1 Hk. subst k2.
  inversion Hnd as [|? ? Hout Hnd']; subst.
  pose proof (Hg k1) as H1. simpl in H1. rewrite String.eqb_refl in H1.
  injection H1 as <-. f_equal. apply IH; [exact Hnd' | exact Hk|].
  intros k. destruct (String.eqb k k1) eqn:E.
  - apply String.eqb_eq in E. subst k.
    rewrite (proj2 (get_none_keys k1 rest1)) by exact Hout.
    symmetry. apply get_none_keys. unfold Map.keys in *. now rewrite <- Hk.
  - specialize (Hg k). simpl in Hg. now rewrite E in Hg.
Qed.

Lemma fold_addKey_present (ks seen : list string) :
  (forall k, In k ks -> In k seen) -> fold_left addKey ks seen = seen.
Proof.
  induction ks as [|k ks IH]; intros H; simpl; [reflexivity|].
  rewrite addKey_present by (apply H; now left).
  apply IH. intros k' Hk'. apply H. now right.
Qed.

Lemma NoDup_fold_request (cs : list Cookie) :
  forall m, NoDup (Map.keys m) -> NoDup (Map.keys (fold_left storeRequestCookie cs m)).
Proof.
  induction cs as [|c cs IH]; intros m Hnd; simpl; [exact Hnd|].
  apply IH. unfold storeRequestCookie. now apply NoDup_keys_set.
Qed.

(** X4: a request handled a second time leaves the store as the first
    handling left it. *)
Theorem request_twice_is_request_once
    (m : Map.t) (reqUrl hostname : string) (cookieHeader : option string) :
  NoDup (Map.keys m) ->
  onRequest (onRequest m reqUrl hostname cookieHeader) reqUrl hostname cookieHeader
  = onRequest m reqUrl hostname cookieHeader.
Proof.
  intros Hnd. unfold onRequest. destruct cookieHeader as [h|]; [|reflexivity].
  destruct (JsString.truthy h); [|reflexivity].
  set (cs := parseCookieHeader hostname reqUrl h).
  set (m' := fold_left storeRequestCookie cs m).
  assert (Hin : forall k, In k (requestKeys hostname reqUrl h) -> In k (Map.keys m')).
  { intros k Hk. apply keys_onRequest. now right. }
  apply store_ext.
  - apply NoDup_fold_request. now apply NoDup_fold_request.
  - unfold cs. rewrite order_onRequest. now apply fold_addKey_present.
  - intros k. rewrite get_fold_request. unfold m'. rewrite get_fold_request.
    now destruct (lastWithKey k cs).
Qed.

(** ** Set-Cookie headers: what is read and what is stored *)

(** X5: a Set-Cookie observation for a key that the store already holds
    changes [expires] and [maxAge] of the record, to the values of the
    header even when these are undefined, and nothing else: the value of the
    header is not taken.  For a new key the record has the name and value of
    the header, the host name and url of the response, and no path or
    flags. *)
Theorem set_cookie_changes_only_expiry_of_known_cookie
    (m : Map.t) (now : Z) (respUrl hostname hdr n : string)
    (v e : option string) (ma : option Z) :
  parseSetCookie now hdr = Observed n v e ma ->
  (forall existing,
      Map.get (keyOf hostname n) m = Some existing ->
      exists r,
        Map.get (keyOf hostname n) (onSetCookie now respUrl hostname m hdr) = Some r
        /\ expires r = e /\ maxAge r = ma
        /\ name r = name existing /\ value r = value existing
        /\ domain r = domain existing /\ url r = url existing
        /\ path r = path existing /\ httpOnly r = httpOnly existing
        /\ secure r = secure existing /\ sameSite r = sameSite existing)
  /\ (Map.get (keyOf hostname n) m = None ->
      Map.get (keyOf hostname n) (onSetCookie now respUrl hostname m hdr)
      = Some {| name := n; value := v; domain := hostname; url := respUrl;
                path := None; expires := e; maxAge := ma;
                httpOnly := None; secure := None; sameSite := None |}).
Proof.
  intros P. unfold onSetCookie. rewrite P. unfold storeSetCookie. split.
  - intros existing G. rewrite G, get_set_same. eexists. split; [reflexivity|].
    cbn. repeat split.
  - intros G. rewrite G. apply get_set_same.
Qed.

Lemma attributes_filter (now : Z) (parts : list string) :
  forall st,
    attributes now st (filter (fun p => isExpires p || isMaxAge p) parts)
    = attributes now st parts.
Proof.
  induction parts as [|p rest IH]; intros st; [reflexivity|].
  cbn [filter]. destruct (isExpires p) eqn:E; cbn [orb].
  - cbn [attributes]. destruct (attribute now st p); cbn [bindCaught]; [apply IH | reflexivity].
  - destruct (isMaxAge p) eqn:M.
    + cbn [attributes]. destruct (attribute now st p); cbn [bindCaught]; [apply IH | reflexivity].
    + cbn [attributes]. rewrite (attribute_other now st p E M). cbn [bindCaught]. apply IH.
Qed.

(** X6: attributes other than [Expires] and [Max-Age] (Path, Domain,
    Secure, HttpOnly, SameSite, ...) have no effect: two headers with the
    same first part and the same [Expires] and [Max-Age] attributes in the
    same order are read alike. *)
Theorem other_attributes_are_ignored (now : Z) (hdr1 hdr2 : string) :
  hd EmptyString (JsString.split ";" hdr1) = hd EmptyString (JsString.split ";" hdr2) ->
  filter (fun p => isExpires p || isMaxAge p) (tl (JsString.split ";" hdr1))
  = filter (fun p => isExpires p || isMaxAge p) (tl (JsString.split ";" hdr2)) ->
  parseSetCookie now hdr1 = parseSetCookie now hdr2.
Proof.
  intros Hhd Hattrs. unfold parseSetCookie. rewrite Hhd.
  rewrite <- (attributes_filter now (tl (JsString.split ";" hdr1))).
  rewrite <- (attributes_filter now (tl (JsString.split ";" hdr2))).
  now rewrite Hattrs.
Qed.

(** X7: when the first readable [Max-Age] stands before any [Expires]
    attribute and the clock plus its seconds is beyond the range of a Date,
    the header is dropped and the store stays as it was. *)
Theorem max_age_out_of_range_drops_cookie
    (now : Z) (respUrl hostname hdr : string) (m : Map.t)
    (pre post : list string) (mPart : string) (seconds : Z) :
  tl (JsString.split ";" hdr) = (pre ++ mPart :: post)%list ->
  (forall p, In p pre -> isExpires p = false) ->
  (forall p, In p pre -> isMaxAge p = true ->
             JsNumber.parseInt (attributeText p) = None) ->
  isExpires mPart = false ->
  isMaxAge mPart = true ->
  JsNumber.parseInt (attributeText mPart) = Some seconds ->
  JsDate.maxTime < Z.abs (now + 1000 * seconds) ->
  (parseSetCookie now hdr = Malformed \/ parseSetCookie now hdr = NoName)
  /\ onSetCookie now respUrl hostname m hdr = m.
Proof.
  intros Hsplit HpreE HpreM HE HM Hint Hbig.
  assert (P : parseSetCookie now hdr = Malformed \/ parseSetCookie now hdr = NoName).
  { unfold parseSetCookie. destruct (negb _); [now right|]. left.
    rewrite Hsplit, attributes_app, attributes_idle by assumption.
    cbn [bindCaught attributes].
    rewrite attribute_max_age, Hint by assumption.
    cbn [fst JsString.otruthy]. unfold JsDate.addSeconds, JsDate.TimeClip.
    destruct (Z.leb_spec (Z.abs (now + 1000 * seconds)) JsDate.maxTime); [lia|].
    reflexivity. }
  split; [exact P|]. unfold onSetCookie. destruct P as [-> | ->]; reflexivity.
Qed.

(** ** Snapshots: domains with a leading dot *)

Lemma startsWith_dot_app (d rest : string) :
  JsString.startsWith "." (d ++ rest)
  = match d with
    | EmptyString => JsString.startsWith "." rest
    | String _ _ => JsString.startsWith "." d
    end.
Proof.
  destruct d as [|a d]; [reflexivity|].
  unfold JsString.startsWith. cbn [append String.prefix].
  destruct (ascii_dec "." a); [|reflexivity].
  assert (E : forall s, String.prefix "" s = true) by (intros [|]; reflexivity).
  now rewrite !E.
Qed.

Lemma dotted_key_differs (d n hostname n' : string) :
  JsString.startsWith "." d = true ->
  JsString.startsWith "." hostname = false ->
  keyOf d n <> keyOf hostname n'.
Proof.
  intros Hd Hh Heq.
  assert (A : JsString.startsWith "." (keyOf d n) = true).
  { unfold keyOf. rewrite startsWith_dot_app. destruct d; [discriminate | exact Hd]. }
  assert (B : JsString.startsWith "." (keyOf hostname n') = false).
  { unfold keyOf. rewrite startsWith_dot_app. destruct hostname; [reflexivity | exact Hh]. }
  rewrite Heq, B in A. discriminate.
Qed.

(** X8: a snapshot cookie whose domain starts with a dot is stored under a
    key of its own: the records that request and response headers made for
    a host name, which has no leading dot, are left as they are, so its
    expiry is not attached to them. *)
Theorem dotted_domain_snapshot_leaves_host_records
    (m : Map.t) (cs : list Cdp.Cookie) (hostname n : string) :
  (forall c, In c cs -> JsString.startsWith "." (Cdp.domain c) = true) ->
  JsString.startsWith "." hostname = false ->
  Map.get (keyOf hostname n) (capturePageCookies m (Some cs))
  = Map.get (keyOf hostname n) m.
Proof.
  intros Hdot Hhost. simpl.
  apply (get_fold_frame onSnapshotCookie snapshotKeys).
  - intros m' c. apply frame_onSnapshotCookie.
  - intros Hin. apply in_flat_map in Hin as [c [Hc Hk]].
    unfold snapshotKeys in Hk. destruct (snapshotRecord c); [|destruct Hk].
    destruct Hk as [Hk|[]].
    exact (dotted_key_differs _ _ _ _ (Hdot c Hc) Hhost Hk).
Qed.

(** ** Snapshots: expiry is filled in *)

Lemma snapshotRecord_truthy (c : Cdp.Cookie) (r : Cookie) :
  snapshotRecord c = Done r -> expires r <> None ->
  JsString.otruthy (expires r) = true.
Proof.
  intros R Hdef. destruct (snapshotRecord_fields _ _ R) as (_ & _ & _ & E).
  apply isoOrAbsent_truthy; [|exact Hdef]. eapply snapshotExpires_iso; eauto.
Qed.

Lemma fold_snapshot_keeps (cs : list Cdp.Cookie) (k : string) :
  forall m,
    (exists r, Map.get k m = Some r /\ JsString.otruthy (expires r) = true) ->
    exists r, Map.get k (fold_left onSnapshotCookie cs m) = Some r
              /\ JsString.otruthy (expires r) = true.
Proof.
  induction cs as [|c cs IH]; intros m H; simpl; [exact H|].
  apply IH. destruct H as [r [G T]]. exists r. split; [|exact T].
  now apply onSnapshotCookie_keeps.
Qed.

Lemma onSnapshotCookie_has_expiry (m : Map.t) (c : Cdp.Cookie) (r : Cookie) :
  snapshotRecord c = Done r ->
  JsString.otruthy (expires r) = true ->
  exists r', Map.get (keyOf (Cdp.domain c) (Cdp.name c)) (onSnapshotCookie m c) = Some r'
             /\ JsString.otruthy (expires r') = true.
Proof.
  intros R T. unfold onSnapshotCookie.
  destruct (Map.get (keyOf (Cdp.domain c) (Cdp.name c)) m) as [ex|] eqn:G;
    cbn [lacksExpiry].
  - destruct (JsString.otruthy (expires ex)) eqn:Tex; cbn [negb].
    + exists ex. now split.
    + rewrite R. exists r. split; [apply get_set_same | exact T].
  - rewrite R. exists r. split; [apply get_set_same | exact T].
Qed.

(** X9: after a snapshot, the key of every cookie of the snapshot that has
    a readable expiry holds a record with a defined expiry: the one it had,
    when that was defined, or else one taken from the snapshot. *)
Theorem snapshot_fills_in_expiry
    (m : Map.t) (cs : list Cdp.Cookie) (c : Cdp.Cookie) (r : Cookie) :
  In c cs ->
  snapshotRecord c = Done r ->
  expires r <> None ->
  exists r',
    Map.get (keyOf (Cdp.domain c) (Cdp.name c)) (capturePageCookies m (Some cs)) = Some r'
    /\ JsString.otruthy (expires r') = true
    /\ expires r' <> None.
Proof.
  intros Hin R Hdef. pose proof (snapshotRecord_truthy _ _ R Hdef) as T.
  apply in_split in Hin as [pre [post ->]]. simpl.
  rewrite fold_left_app. simpl.
  destruct (fold_snapshot_keeps post (keyOf (Cdp.domain c) (Cdp.name c))
              (onSnapshotCookie (fold_left onSnapshotCookie pre m) c)) as [r' [G T']].
  - now apply onSnapshotCookie_has_expiry with (r := r).
  - exists r'. repeat split; try assumption.
    intros E. rewrite E in T'. discriminate.
Qed.

(** ** Snapshots: the same snapshot twice *)

Lemma get_onSnapshotCookie (m : Map.t) (c : Cdp.Cookie) (k : string) :
  Map.get k (onSnapshotCookie m c)
  = fold_left mergeSnapshotRecord (snapshotRecordsFor k [c]) (Map.get k m).
Proof.
  unfold snapshotRecordsFor, onSnapshotCookie. cbn [flat_map]. rewrite app_nil_r.
  destruct (String.eqb (keyOf (Cdp.domain c) (Cdp.name c)) k) eqn:E.
  - apply String.eqb_eq in E. rewrite E.
    destruct (snapshotRecord c) as [r|]; cbn [fold_left].
    + unfold mergeSnapshotRecord. destruct (lacksExpiry (Map.get k m)); [apply get_set_same | reflexivity].
    + now destruct (lacksExpiry (Map.get k m)).
  - apply String.eqb_neq in E. cbn [fold_left].
    destruct (lacksExpiry _); [|reflexivity].
    destruct (snapshotRecord c); [now apply get_set_other | reflexivity].
Qed.

Lemma get_fold_snapshot (cs : list Cdp.Cookie) (k : string) :
  forall m,
    Map.get k (fold_left onSnapshotCookie cs m)
    = fold_left mergeSnapshotRecord (snapshotRecordsFor k cs) (Map.get k m).
Proof.
  induction cs as [|c cs IH]; intros m; [reflexivity|].
  cbn [fold_left]. rewrite IH, get_onSnapshotCookie.
  assert (E : snapshotRecordsFor k (c :: cs)
              = (snapshotRecordsFor k [c] ++ snapshotRecordsFor k cs)%list).
  { unfold snapshotRecordsFor. cbn [flat_map]. now rewrite app_nil_r. }
  now rewrite E, fold_left_app.
Qed.

Lemma merge_settled (rs : list Cookie) (p : option Cookie) :
  lacksExpiry p = false -> fold_left mergeSnapshotRecord rs p = p.
Proof.
  induction rs as [|r rs IH]; intros H; [reflexivity|].
  cbn [fold_left]. unfold mergeSnapshotRecord at 2. rewrite H. now apply IH.
Qed.

Lemma merge_unsettled (rs : list Cookie) :
  forall p,
    lacksExpiry (fold_left mergeSnapshotRecord rs p) = true ->
    lacksExpiry p = true
    /\ Forall (fun r => lacksExpiry (Some r) = true) rs
    /\ fold_left mergeSnapshotRecord rs p = fold_left (fun _ r => Some r) rs p.
Proof.
  induction rs as [|r rs IH]; intros p H; [now repeat split|].
  cbn [fold_left] in *. destruct (IH _ H) as (Hm & Hall & Heq).
  unfold mergeSnapshotRecord in Hm, Heq, H |- *.
  destruct (lacksExpiry p) eqn:L.
  - repeat split; [constructor; assumption | exact Heq].
  - rewrite L in Hm. discriminate.
Qed.

Lemma merge_all_lacking (rs : list Cookie) :
  forall p,
    lacksExpiry p = true ->
    Forall (fun r => lacksExpiry (Some r) = true) rs ->
    fold_left mergeSnapshotRecord rs p = fold_left (fun _ r => Some r) rs p.
Proof.
  induction rs as [|r rs IH]; intros p Hp Hall; [reflexivity|].
  inversion Hall as [|? ? Hr Hrs]; subst. cbn [fold_left].
  unfold mergeSnapshotRecord at 2. rewrite Hp. now apply IH.
Qed.

Lemma last_ignores_start (rs : list Cookie) (p q : option Cookie) :
  rs <> [] -> fold_left (fun _ r => Some r) rs p = fold_left (fun _ r => Some r) rs q.
Proof. destruct rs as [|r rs]; [congruence | reflexivity]. Qed.

Lemma merge_twice (rs : list Cookie) (p : option Cookie) :
  fold_left mergeSnapshotRecord rs (fold_left mergeSnapshotRecord rs p)
  = fold_left mergeSnapshotRecord rs p.
Proof.
  destruct (lacksExpiry (fold_left mergeSnapshotRecord rs p)) eqn:L.
  - destruct (merge_unsettled rs p L) as (Hp & Hall & Heq).
    rewrite (merge_all_lacking rs _ L Hall), Heq.
    destruct rs as [|r rs]; [reflexivity|]. reflexivity.
  - now apply merge_settled.
Qed.

Lemma NoDup_fold_snapshot (cs : list Cdp.Cookie) :
  forall m, NoDup (Map.keys m) -> NoDup (Map.keys (fold_left onSnapshotCookie cs m)).
Proof.
  induction cs as [|c cs IH]; intros m Hnd; simpl; [exact Hnd|].
  apply IH. unfold onSnapshotCookie.
  destruct (lacksExpiry _); [|exact Hnd].
  destruct (snapshotRecord c); [now apply NoDup_keys_set | exact Hnd].
Qed.

(** X10: a snapshot taken a second time with the same cookies leaves the
    store as the first one left it. *)
Theorem snapshot_twice_is_snapshot_once
    (m : Map.t) (cookies : option (list Cdp.Cookie)) :
  NoDup (Map.keys m) ->
  capturePageCookies (capturePageCookies m cookies) cookies
  = capturePageCookies m cookies.
Proof.
  intros Hnd. destruct cookies as [cs|]; [|reflexivity]. simpl.
  set (m' := fold_left onSnapshotCookie cs m).
  apply store_ext.
  - apply NoDup_fold_snapshot. now apply NoDup_fold_snapshot.
  - rewrite (keys_fold_addKey onSnapshotCookie snapshotKeys cs order_onSnapshotCookie).
    apply fold_addKey_present. intros k Hk.
    apply (keys_fold onSnapshotCookie snapshotKeys cs k
             (fun m0 a => keys_onSnapshotCookie m0 a k)). now right.
  - intros k. rewrite get_fold_snapshot. unfold m'. rewrite get_fold_snapshot.
    apply merge_twice.
Qed.

(** ** The report: groups *)

Lemma groupedCount_app (o1 o2 : list (string * list View.t)) :
  groupedCount (o1 ++ o2) = (groupedCount o1 + groupedCount o2)%nat.
Proof.
  unfold groupedCount. induction o1 as [|dv o1 IH]; simpl; [reflexivity|].
  rewrite IH. lia.
Qed.

Lemma groupedCount_pushTo (d : string) (v : View.t) (o : list (string * list View.t)) :
  ownProperty d o <> None -> groupedCount (pushTo d v o) = S (groupedCount o).
Proof.
  unfold groupedCount.
  induction o as [|[d0 vs0] rest IH]; simpl; [congruence|].
  destruct (String.eqb d d0); simpl.
  - intros _. rewrite length_app. simpl. lia.
  - intros H. rewrite (IH H). lia.
Qed.

Lemma groupByDomain_count (cs : list Cookie) :
  forall o o', groupByDomain o cs = Done o' ->
               groupedCount o' = (groupedCount o + List.length cs)%nat.
Proof.
  induction cs as [|c cs IH]; intros o o' H; simpl in H.
  - injection H as <-. simpl. lia.
  - destruct (groupCookie o c) as [o1|] eqn:G; [|discriminate]. simpl in H.
    rewrite (IH _ _ H). unfold groupCookie in G.
    destruct (ownProperty (domain c) o) eqn:Own.
    + injection G as <-. rewrite groupedCount_pushTo by congruence. simpl. lia.
    + destruct (existsb _ objectPrototype); [discriminate|]. injection G as <-.
      rewrite groupedCount_app. simpl. lia.
Qed.

(** X11: the groups of [cookiesByDomain] are a partition of the records:
    no domain has two groups, a domain has a group exactly when some record
    has that domain, and the sizes of the groups add up to [totalCookies]. *)
Theorem groups_partition_the_records
    (target : string) (now : Z) (m : Map.t) (rep : Report) :
  buildReport target now m = Done rep ->
  NoDup (map fst (cookiesByDomain rep))
  /\ (forall d, In d (map fst (cookiesByDomain rep))
                <-> exists c, In c (allCookies rep) /\ domain c = d)
  /\ groupedCount (cookiesByDomain rep) = totalCookies rep.
Proof.
  unfold buildReport.
  destruct (groupByDomain [] (Map.values m)) as [byDomain|] eqn:G; [|discriminate].
  simpl. intros [= <-]. simpl.
  destruct (groupByDomain_own _ _ _ G) as [Hnd Hown]. split; [|split].
  - apply Hnd. constructor.
  - intros d. specialize (Hown d). simpl in Hown. split.
    + intros Hin.
      destruct (filter (fun c => String.eqb (domain c) d) (Map.values m))
        as [|c0 cs0] eqn:F.
      * simpl in Hown. apply ownProperty_keys in Hown. contradiction.
      * exists c0. assert (Hc : In c0 (filter (fun c => String.eqb (domain c) d) (Map.values m)))
          by (rewrite F; now left).
        apply filter_In in Hc as [Hc Hd]. split; [exact Hc | now apply String.eqb_eq].
    + intros [c [Hc Hd]].
      assert (Hf : In c (filter (fun c0 => String.eqb (domain c0) d) (Map.values m)))
        by (apply filter_In; split; [exact Hc | now apply String.eqb_eq]).
      destruct (filter _ (Map.values m)) as [|c0 cs0]; [destruct Hf|].
      simpl in Hown. apply ownProperty_in in Hown.
      change d with (fst (d, (viewOf c0 :: map viewOf cs0))). now apply in_map.
  - rewrite (groupByDomain_count _ _ _ G). reflexivity.
Qed.

Lemma inherited_spec (d : string) :
  existsb (String.eqb d) objectPrototype = true <-> In d objectPrototype.
Proof.
  rewrite existsb_exists. split.
  - intros [x [Hx E]]. apply String.eqb_eq in E. now subst.
  - intros H. exists d. split; [exact H | apply String.eqb_refl].
Qed.

Lemma groupByDomain_throws (cs : list Cookie) :
  forall o,
    (forall d, In d (map fst o) -> ~ In d objectPrototype) ->
    (groupByDomain o cs = Threw <-> exists c, In c cs /\ In (domain c) objectPrototype).
Proof.
  induction cs as [|c cs IH]; intros o Ho.
  - split; [discriminate | intros [c [[] _]]].
  - cbn [groupByDomain]. unfold groupCookie.
    destruct (ownProperty (domain c) o) as [vs|] eqn:Own; cbn [bindCaught].
    + assert (Hin : In (domain c) (map fst o)).
      { destruct (in_dec string_dec (domain c) (map fst o)) as [H|H]; [exact H|].
        apply ownProperty_keys in H. congruence. }
      rewrite IH by (intros d Hd; apply Ho; now rewrite keys_pushTo in Hd).
      split.
      * intros [c' [Hc' Hd]]. exists c'. split; [now right | exact Hd].
      * intros [c' [[<-|Hc'] Hd]]; [exfalso; exact (Ho _ Hin Hd) | eauto].
    + destruct (existsb (String.eqb (domain c)) objectPrototype) eqn:E; cbn [bindCaught].
      * apply inherited_spec in E. split; [|reflexivity].
        intros _. exists c. split; [now left | exact E].
      * assert (Hnot : ~ In (domain c) objectPrototype).
        { intros H. apply inherited_spec in H. congruence. }
        rewrite IH.
        -- split.
           ++ intros [c' [Hc' Hd]]. exists c'. split; [now right | exact Hd].
           ++ intros [c' [[<-|Hc'] Hd]]; [contradiction | eauto].
        -- intros d Hd. rewrite map_app in Hd. apply in_app_iff in Hd as [Hd|[<-|[]]];
             [now apply Ho | exact Hnot].
Qed.

(** X12: the report cannot be built, and the run is rejected by the
    TypeError of line 229, exactly when some record has a domain that names
    a member of [Object.prototype]; otherwise the report is built. *)
Theorem report_fails_exactly_on_inherited_domain
    (target : string) (now : Z) (m : Map.t) :
  buildReport target now m = Threw
  <-> exists c, In c (Map.values m) /\ In (domain c) objectPrototype.
Proof.
  rewrite <- (groupByDomain_throws (Map.values m) []) by (intros d []).
  unfold buildReport. destruct (groupByDomain [] (Map.values m)); simpl;
    split; congruence.
Qed.

(** ** Shape of the stored records *)

Lemma shape_set (k : string) (v : Cookie) (m : Map.t) :
  Forall (fun kc => shapeOk (snd kc)) m -> shapeOk v ->
  Forall (fun kc => shapeOk (snd kc)) (Map.set k v m).
Proof.
  intros Hall Hv. apply Forall_forall. intros kc Hin.
  destruct (in_set _ _ _ _ Hin) as [->|Hold]; [exact Hv|].
  rewrite Forall_forall in Hall. now apply Hall.
Qed.

Lemma shape_fold {A : Type} (f : Map.t -> A -> Map.t) (l : list A) :
  (forall m a, Forall (fun kc => shapeOk (snd kc)) m ->
               Forall (fun kc => shapeOk (snd kc)) (f m a)) ->
  forall m, Forall (fun kc => shapeOk (snd kc)) m ->
            Forall (fun kc => shapeOk (snd kc)) (fold_left f l m).
Proof.
  intros Hf. induction l as [|a l IH]; intros m Hm; simpl; auto.
Qed.

Lemma shape_requestCookie (hostname reqUrl segment : string) :
  shapeOk (requestCookie hostname reqUrl segment).
Proof. unfold shapeOk. cbn. repeat split; congruence. Qed.

Lemma attribute_pair (now : Z) (st st' : option string * option Z) (p : string) :
  attribute now st p = Done st' ->
  (snd st <> None -> fst st <> None) -> snd st' <> None -> fst st' <> None.
Proof.
  unfold attribute.
  destruct (JsString.startsWith "expires=" _).
  - destruct (dateOfString _); [|discriminate]. intros [= <-]. cbn. congruence.
  - destruct (JsString.startsWith "max-age=" _); [|now intros [= <-]].
    destruct (JsNumber.parseInt _); [|now intros [= <-]].
    destruct (JsString.otruthy (fst st)) eqn:T.
    + intros [= <-] _ _. cbn. intros E. rewrite E in T. discriminate.
    + destruct (JsDate.addSeconds _ _); [|discriminate].
      intros [= <-]. cbn. congruence.
Qed.

Lemma attributes_pair (now : Z) (parts : list string) :
  forall st st',
    attributes now st parts = Done st' ->
    (snd st <> None -> fst st <> None) -> snd st' <> None -> fst st' <> None.
Proof.
  induction parts as [|p rest IH]; intros st st' H Hst; simpl in H.
  - now injection H as <-.
  - destruct (attribute now st p) as [st1|] eqn:E; [|discriminate]. simpl in H.
    eapply IH; [exact H|]. eapply attribute_pair; eauto.
Qed.

Lemma shape_onSetCookie (now : Z) (respUrl hostname : string) (m : Map.t) (hdr : string) :
  Forall (fun kc => shapeOk (snd kc)) m ->
  Forall (fun kc => shapeOk (snd kc)) (onSetCookie now respUrl hostname m hdr).
Proof.
  intros Hm. unfold onSetCookie.
  destruct (parseSetCookie now hdr) as [| |n v e ma] eqn:P; try exact Hm.
  assert (Hpair : ma <> None -> e <> None).
  { apply parseSetCookie_observed in P.
    exact (attributes_pair _ _ _ _ P (fun H => False_ind _ (H eq_refl))). }
  unfold storeSetCookie.
  destruct (Map.get (keyOf hostname n) m) as [ex|] eqn:G; apply shape_set; try exact Hm.
  - rewrite Forall_forall in Hm. pose proof (Hm _ (get_in _ _ _ G)) as Hex.
    unfold shapeOk in *. cbn in *. tauto.
  - unfold shapeOk. cbn. repeat split; try assumption; congruence.
Qed.

Lemma shape_onSnapshotCookie (m : Map.t) (c : Cdp.Cookie) :
  Forall (fun kc => shapeOk (snd kc)) m ->
  Forall (fun kc => shapeOk (snd kc)) (onSnapshotCookie m c).
Proof.
  intros Hm. unfold onSnapshotCookie.
  destruct (lacksExpiry _); [|exact Hm].
  destruct (snapshotRecord c) as [r|] eqn:R; [|exact Hm].
  apply shape_set; [exact Hm|]. unfold snapshotRecord in R.
  destruct (snapshotExpires (Cdp.expires c)); [|discriminate].
  cbn in R. injection R as <-. unfold shapeOk. cbn. repeat split; congruence.
Qed.

Lemma shape_step (m : Map.t) (ev : Event) :
  Forall (fun kc => shapeOk (snd kc)) m ->
  Forall (fun kc => shapeOk (snd kc)) (step m ev).
Proof.
  intros Hm. destruct ev as [u h [c|]|u h [|hdr|hs] now|[cs|]]; simpl; try exact Hm.
  - destruct (JsString.truthy c); [|exact Hm]. unfold parseCookieHeader.
    revert m Hm. induction (JsString.split ";" c) as [|seg segs IH]; intros m Hm; simpl;
      [exact Hm|].
    apply IH. unfold storeRequestCookie. apply shape_set; [exact Hm|].
    apply shape_requestCookie.
  - destruct (JsString.truthy hdr); [now apply shape_onSetCookie | exact Hm].
  - apply shape_fold; [|exact Hm]. intros; now apply shape_onSetCookie.
  - apply shape_fold; [|exact Hm]. intros; now apply shape_onSnapshotCookie.
Qed.

(** X13: in the store of any run, a record with a [maxAge] has an
    [expires]; [path], [httpOnly] and [secure] are defined together or not
    at all; a [sameSite] comes only with them; and a record that has them
    has a value and the url made from its domain. *)
Theorem stored_records_have_consistent_fields
    (evs : list Event) (k : string) (r : Cookie) :
  Map.get k (run evs) = Some r -> shapeOk r.
Proof.
  intros G.
  assert (H : Forall (fun kc => shapeOk (snd kc)) (run evs)).
  { unfold run. apply shape_fold; [intros; now apply shape_step | constructor]. }
  rewrite Forall_forall in H. exact (H _ (get_in _ _ _ G)).
Qed.

(** ** The run as a whole *)




(** ** Well-formed headers *)

Lemma list_ascii_app (a b : string) :
  list_ascii_of_string (a ++ b)
  = (list_ascii_of_string a ++ list_ascii_of_string b)%list.
Proof. induction a as [|x a IH]; simpl; [reflexivity | now rewrite IH]. Qed.

Lemma append_assoc (a b c : string) : (a ++ b) ++ c = a ++ (b ++ c).
Proof. induction a as [|x a IH]; simpl; [reflexivity | now rewrite IH]. Qed.

Lemma plain_char (s : string) (a : ascii) :
  plain s = true -> In a (list_ascii_of_string s) ->
  JsString.isWhite a = false /\ Ascii.eqb a ";" = false /\ Ascii.eqb a "=" = false.
Proof.
  unfold plain. rewrite forallb_forall. intros H Hin. specialize (H a Hin).
  unfold plainChar in H. apply negb_true_iff in H.
  apply orb_false_iff in H as [H H3]. apply orb_false_iff in H as [H1 H2]. auto.
Qed.

Lemma plain_without (c : ascii) (s : string) :
  (c = ";" \/ c = "=")%char -> plain s = true -> JsString.contains c s = false.
Proof.
  intros Hc Hp. unfold JsString.contains.
  destruct (existsb (Ascii.eqb c) (list_ascii_of_string s)) eqn:E; [|reflexivity].
  apply existsb_exists in E as [a [Hin Ha]]. apply Ascii.eqb_eq in Ha. subst a.
  destruct (plain_char s c Hp Hin) as (_ & H1 & H2).
  destruct Hc as [-> | ->]; discriminate.
Qed.

Lemma trimStart_id (s : string) :
  (forall a, In a (list_ascii_of_string s) -> JsString.isWhite a = false) ->
  JsString.trimStart s = s.
Proof.
  destruct s as [|a s]; [reflexivity|]. intros H. simpl.
  now rewrite (H a (or_introl eq_refl)).
Qed.

Lemma trimEnd_id (s : string) :
  (forall a, In a (list_ascii_of_string s) -> JsString.isWhite a = false) ->
  JsString.trimEnd s = s.
Proof.
  induction s as [|a s IH]; [reflexivity|]. intros H. simpl.
  rewrite IH by (intros b Hb; apply H; now right).
  destruct s; [|reflexivity]. now rewrite (H a (or_introl eq_refl)).
Qed.

Lemma pair_not_white (n v : string) (a : ascii) :
  plain n = true -> plain v = true ->
  In a (list_ascii_of_string (n ++ "=" ++ v)) -> JsString.isWhite a = false.
Proof.
  intros Hn Hv Hin. rewrite !list_ascii_app in Hin.
  apply in_app_iff in Hin as [Hin|Hin]; [exact (proj1 (plain_char n a Hn Hin))|].
  apply in_app_iff in Hin as [[<-|[]]|Hin]; [reflexivity|].
  exact (proj1 (plain_char v a Hv Hin)).
Qed.

Lemma trim_pair (n v : string) :
  plain n = true -> plain v = true ->
  JsString.trim (n ++ "=" ++ v) = n ++ "=" ++ v
  /\ JsString.trim (String " " (n ++ "=" ++ v)) = n ++ "=" ++ v.
Proof.
  intros Hn Hv.
  assert (A : JsString.trim (n ++ "=" ++ v) = n ++ "=" ++ v).
  { unfold JsString.trim.
    rewrite trimStart_id, trimEnd_id; try reflexivity;
      intros a Ha; now apply (pair_not_white n v). }
  split; [exact A|]. unfold JsString.trim in *. cbn [JsString.trimStart].
  change (JsString.isWhite " ") with true. cbn iota. exact A.
Qed.

Lemma split_pair (n v : string) :
  plain n = true -> plain v = true ->
  JsString.split "=" (n ++ "=" ++ v) = [n; v]
  /\ JsString.contains ";" (n ++ "=" ++ v) = false.
Proof.
  intros Hn Hv. split.
  - change (n ++ "=" ++ v) with (n ++ String "=" v).
    rewrite split_app by (apply plain_without; auto).
    rewrite split_without by (apply plain_without; auto). reflexivity.
  - rewrite !contains_app, (plain_without ";" n), (plain_without ";" v) by auto.
    reflexivity.
Qed.

Lemma requestCookie_pair (hostname reqUrl n v : string) :
  plain n = true -> plain v = true ->
  requestCookie hostname reqUrl (n ++ "=" ++ v)
  = {| name := n; value := Some v; domain := hostname; url := reqUrl;
       path := None; expires := None; maxAge := None;
       httpOnly := None; secure := None; sameSite := None |}
  /\ requestCookie hostname reqUrl (String " " (n ++ "=" ++ v))
     = {| name := n; value := Some v; domain := hostname; url := reqUrl;
          path := None; expires := None; maxAge := None;
          httpOnly := None; secure := None; sameSite := None |}.
Proof.
  intros Hn Hv. destruct (trim_pair n v Hn Hv) as [T1 T2].
  destruct (split_pair n v Hn Hv) as [S _].
  unfold requestCookie. rewrite T1, T2, S. split; reflexivity.
Qed.

Lemma split_cookieHeaderOf (p : string * string) (ps : list (string * string)) :
  (forall n v, In (n, v) (p :: ps) -> plain n = true /\ plain v = true) ->
  JsString.split ";" (cookieHeaderOf (p :: ps))
  = (fst p ++ "=" ++ snd p)
      :: map (fun q => String " " (fst q ++ "=" ++ snd q)) ps.
Proof.
  revert p. induction ps as [|q ps IH]; intros [n v] H.
  - destruct (H n v (or_introl eq_refl)) as [Hn Hv]. cbn [cookieHeaderOf map fst snd].
    apply split_without. exact (proj2 (split_pair n v Hn Hv)).
  - destruct (H n v (or_introl eq_refl)) as [Hn Hv].
    assert (E : cookieHeaderOf ((n, v) :: q :: ps)
                = (n ++ "=" ++ v) ++ String ";" (String " " (cookieHeaderOf (q :: ps)))).
    { destruct q as [n' v']. cbn [cookieHeaderOf]. now rewrite !append_assoc. }
    rewrite E, split_app by exact (proj2 (split_pair n v Hn Hv)).
    cbn [map fst snd]. f_equal.
    cbn [JsString.split]. change (Ascii.eqb " " ";") with false. cbn iota.
    rewrite IH by (intros n0 v0 H0; apply H; now right). reflexivity.
Qed.

(** X16: a [Cookie:] header written from pairs of names and values without
    white space, [;] and [=], joined by [; ], is read back as exactly these
    pairs, in their order. *)
Theorem plain_cookie_header_is_read_back
    (hostname reqUrl : string) (pairs : list (string * string)) :
  pairs <> [] ->
  (forall n v, In (n, v) pairs -> plain n = true /\ plain v = true) ->
  parseCookieHeader hostname reqUrl (cookieHeaderOf pairs)
  = map (fun nv => {| name := fst nv; value := Some (snd nv);
                      domain := hostname; url := reqUrl;
                      path := None; expires := None; maxAge := None;
                      httpOnly := None; secure := None; sameSite := None |})
        pairs.
Proof.
  intros Hne Hplain. destruct pairs as [|[n v] ps]; [congruence|].
  unfold parseCookieHeader. rewrite split_cookieHeaderOf by exact Hplain.
  cbn [map fst snd]. destruct (Hplain n v (or_introl eq_refl)) as [Hn Hv].
  rewrite (proj1 (requestCookie_pair hostname reqUrl n v Hn Hv)). f_equal.
  rewrite map_map. apply map_ext_in. intros [n' v'] Hin. cbn [fst snd].
  destruct (Hplain n' v' (or_intror Hin)) as [Hn' Hv'].
  exact (proj2 (requestCookie_pair hostname reqUrl n' v' Hn' Hv')).
Qed.

(** X17: a Set-Cookie header that starts with a pair [n=v] without white
    space, [;] and [=], [n] not empty, gives the name [n] and the value
    [v]: alone it is an observation without expiry, and followed by
    attributes it is an observation with what the attributes give, or
    nothing when one of them fails. *)
Theorem set_cookie_pair_is_read
    (now : Z) (n v attrs : string) :
  plain n = true -> plain v = true -> n <> EmptyString ->
  parseSetCookie now (n ++ "=" ++ v) = Observed n (Some v) None None
  /\ parseSetCookie now ((n ++ "=" ++ v) ++ String ";" attrs)
     = match attributes now (None, None) (JsString.split ";" attrs) with
       | Done (e, ma) => Observed n (Some v) e ma
       | Threw => Malformed
       end.
Proof.
  intros Hn Hv Hne. destruct (trim_pair n v Hn Hv) as [T _].
  destruct (split_pair n v Hn Hv) as [S C].
  assert (Tn : negb (JsString.truthy n) = false) by (destruct n; [congruence | reflexivity]).
  unfold parseSetCookie. split.
  - rewrite (split_without ";" _ C). cbn [hd tl]. rewrite T, S. cbn [hd nth_error].
    rewrite Tn. reflexivity.
  - rewrite (split_app ";" _ attrs C). cbn [hd tl]. rewrite T, S. cbn [hd nth_error].
    rewrite Tn. reflexivity.
Qed.

(** ** Growth of the store *)

Lemma length_fold_addKey (ks : list string) :
  forall seen,
    (List.length seen <= List.length (fold_left addKey ks seen)
     <= List.length seen + List.length ks)%nat.
Proof.
  induction ks as [|k ks IH]; intros seen; simpl; [lia|].
  specialize (IH (addKey seen k)). unfold addKey in *.
  destruct (in_dec string_dec k seen); [lia|].
  rewrite length_app in IH. simpl in IH. lia.
Qed.

(** X15: further events never make the store smaller, and they add at most
    one record for each of their observations. *)
Theorem store_grows_by_at_most_the_observations (evs more : list Event) :
  (List.length (run evs) <= List.length (run (evs ++ more))
   <= List.length (run evs) + List.length (flat_map observedKeys more))%nat.
Proof.
  assert (L : forall m : Map.t, List.length m = List.length (Map.keys m))
    by (intros m; unfold Map.keys; now rewrite length_map).
  rewrite !L. unfold run. rewrite fold_left_app.
  rewrite (keys_fold_addKey step observedKeys more order_step).
  apply length_fold_addKey.
Qed.

End Capture.

(** * The handlers on sample inputs *)

Example split_two : JsString.split ";" "a=1; b=2" = ["a=1"; " b=2"].
Proof. reflexivity. Qed.

Example split_of_empty : JsString.split ";" "" = [""].
Proof. reflexivity. Qed.

Example split_every_equals : JsString.split "=" "a=b=c" = ["a"; "b"; "c"].
Proof. reflexivity. Qed.

Example trim_both_ends : JsString.trim "  a b  " = "a b".
Proof. reflexivity. Qed.

Example parseInt_samples :
  map JsNumber.parseInt ["3600"; " 12abc"; "-5"; "0x1F"; "abc"; ""; "+7"; "1e3"; "-"]
  = [Some 3600; Some 12; Some (-5); Some 31; None; None; Some 7; Some 1; None].
Proof. vm_compute. reflexivity. Qed.

Example toISOString_samples :
  map JsDate.toISOString
    [0; -1000; 1767225600000; 1709210096789; 8640000000000000;
     -8640000000000000; -62198755200000]
  = ["1970-01-01T00:00:00.000Z"; "1969-12-31T23:59:59.000Z";
     "2026-01-01T00:00:00.000Z"; "2024-02-29T12:34:56.789Z";
     "+275760-09-13T00:00:00.000Z"; "-271821-04-20T00:00:00.000Z";
     "-000001-01-01T00:00:00.000Z"].
Proof. vm_compute. reflexivity. Qed.

Example ofNumber_samples :
  map JsDate.ofNumber
    [(-1 # 1) * 1000; (-1 # 10000) * 1000; (17672256005 # 10) * 1000;
     (-9000000000000 # 1) * 1000]%Q
  = [Some (-1000); Some 0; Some 1767225600500; None].
Proof. vm_compute. reflexivity. Qed.

(** The scenario of the specification: [Cookie: a=1; b=2] from [x.com]. *)
Example two_request_cookies :
  map (fun kc => (fst kc, value (snd kc), expires (snd kc)))
    (run sampleDateParse [Request "https://x.com/" "x.com" (Some "a=1; b=2")])
  = [("x.com|a", Some "1", None); ("x.com|b", Some "2", None)].
Proof. vm_compute. reflexivity. Qed.

(** The scenario of the specification: [Set-Cookie: s=tok; Max-Age=3600]. *)
Example max_age_scenario :
  map (fun kc => (fst kc, value (snd kc), expires (snd kc), maxAge (snd kc)))
    (run sampleDateParse
       [Request "https://x.com/" "x.com" (Some "a=1; b=2");
        Response "https://x.com/" "x.com" (OneSetCookie "s=tok; Max-Age=3600") sampleNow])
  = [("x.com|a", Some "1", None, None); ("x.com|b", Some "2", None, None);
     ("x.com|s", Some "tok", Some "2026-01-01T01:00:00.000Z", Some 3600)].
Proof. vm_compute. reflexivity. Qed.

(** A domain that names a member of [Object.prototype] stops the report. *)
Example report_throws_on_inherited_name :
  buildReport "https://constructor/" sampleNow
    (run sampleDateParse [Request "https://constructor/" "constructor" (Some "a=1")])
  = Threw.
Proof. vm_compute. reflexivity. Qed.

(** * The claims on sample inputs *)

(** C1 as stated fails: a request header that follows the Set-Cookie header
    leaves the record without the expiry it had, and so does a second
    Set-Cookie header that carries no expiry. *)
Lemma C1_expiry_lost_by_later_observation :
  option_map expires
    (Map.get "x.com|a" (run sampleDateParse [sampleRequest; sampleSetCookie]))
  = Some (Some "2026-01-01T01:00:00.000Z")
  /\ option_map expires
       (Map.get "x.com|a" (run sampleDateParse [sampleSetCookie]))
     = Some (Some "2026-01-01T01:00:00.000Z")
  /\ option_map expires
       (Map.get "x.com|a" (run sampleDateParse [sampleSetCookie; sampleRequest]))
     = Some None
  /\ option_map expires
       (Map.get "x.com|a"
          (run sampleDateParse
             [sampleSetCookie;
              Response "https://x.com/" "x.com" (OneSetCookie "a=2") sampleNow]))
     = Some None.
Proof. vm_compute. repeat split. Qed.

Lemma C1_witness :
  exists r,
    Map.get "x.com|a"
      (onSetCookie sampleDateParse sampleNow "https://x.com/" "x.com"
         (storeRequestCookie Map.empty (requestCookie "x.com" "https://x.com/p" "a=1"))
         "a=1; Max-Age=3600") = Some r
    /\ expires r = Some "2026-01-01T01:00:00.000Z"
    /\ value r = Some "1".
Proof.
  destruct (C1_request_then_set_cookie_has_expiry sampleDateParse Map.empty sampleNow
              "https://x.com/" "https://x.com/p" "x.com" "a=1" "a=1; Max-Age=3600"
              "a" (Some "1") "2026-01-01T01:00:00.000Z" (Some 3600)
              eq_refl eq_refl) as (_ & A).
  eexists. split; [exact A | split; reflexivity].
Defined.

(** C2 as stated fails: the snapshot's value and url take the place of
    those that the request header had set. *)
Lemma C2_snapshot_overwrites_defined_fields :
  option_map (fun r => (value r, url r, expires r))
    (Map.get "x.com|a" (run sampleDateParse [sampleRequest]))
  = Some (Some "1", "https://x.com/p", None)
  /\ option_map (fun r => (value r, url r, expires r))
       (Map.get "x.com|a"
          (run sampleDateParse [sampleRequest; Snapshot (Some [sampleSessionCookie])]))
     = Some (Some "2", "https://x.com", None).
Proof. vm_compute. split; reflexivity. Qed.

Lemma C2_witness :
  exists r,
    Map.get "x.com|a"
      (onSnapshotCookie (run sampleDateParse [sampleRequest]) sampleSessionCookie)
    = Some r
    /\ expires r = None /\ value r = Some "2".
Proof.
  pose proof (proj2 (C2_snapshot_replaces_record_without_expiry
                (run sampleDateParse [sampleRequest]) sampleSessionCookie
                (requestCookie "x.com" "https://x.com/p" "a=1") eq_refl eq_refl)
                0%Q eq_refl (Qeq_refl 0)) as H.
  eexists. split; [exact H | split; reflexivity].
Defined.

Lemma C3_witness :
  Map.get "x.com|a"
    (capturePageCookies (run sampleDateParse [sampleRequest; sampleSetCookie])
       (Some [sampleSessionCookie; sampleMinusOne]))
  = Map.get "x.com|a" (run sampleDateParse [sampleRequest; sampleSetCookie])
  /\ onSnapshotCookie (run sampleDateParse [sampleRequest; sampleSetCookie])
       sampleSessionCookie
     = run sampleDateParse [sampleRequest; sampleSetCookie].
Proof.
  destruct (C3_snapshot_keeps_record_with_expiry sampleDateParse
              [sampleRequest; sampleSetCookie] "x.com|a"
              {| name := "a"; value := Some "1"; domain := "x.com";
                 url := "https://x.com/p"; path := None;
                 expires := Some "2026-01-01T01:00:00.000Z";
                 maxAge := Some 3600; httpOnly := None; secure := None;
                 sameSite := None |}
              (Some [sampleSessionCookie; sampleMinusOne])
              eq_refl ltac:(discriminate)) as [A B].
  split; [exact A | exact (B sampleSessionCookie eq_refl)].
Defined.

(** C4 as stated fails: the segment without [=] and the segment without a
    name both yield an observation, and both are stored. *)
Lemma C4_malformed_segments_are_stored :
  map (fun c => (name c, value c))
    (parseCookieHeader "x.com" "https://x.com/" "a=1; flag; =x")
  = [("a", Some "1"); ("flag", None); ("", Some "x")]
  /\ Map.keys
       (run sampleDateParse [Request "https://x.com/" "x.com" (Some "a=1; flag; =x")])
     = ["x.com|a"; "x.com|flag"; "x.com|"].
Proof. vm_compute. split; reflexivity. Qed.

Lemma C4_witness :
  exists r,
    Map.get "x.com|flag"
      (onRequest Map.empty "https://x.com/" "x.com" (Some "a=1; flag")) = Some r
    /\ name r = "flag"
    /\ value (requestCookie "x.com" "https://x.com/" " flag") = None.
Proof.
  destruct (C4_every_named_segment_is_observed Map.empty "https://x.com/" "x.com"
              "a=1; flag" " flag" (or_intror (or_introl eq_refl))
              ltac:(discriminate)) as (_ & _ & (r & G & N & _) & V & _).
  exists r. split; [exact G | split; [exact N | exact (proj2 (V eq_refl))]].
Defined.

Lemma C5_witness :
  value (requestCookie "x.com" "https://x.com/" "a=b=c") = Some "b"
  /\ value (requestCookie "x.com" "https://x.com/" "a=b=c") <> Some "b=c".
Proof.
  destruct (C5_value_cut_at_second_equals "x.com" "https://x.com/" "a=b=c"
              "a" "b" "c" eq_refl eq_refl eq_refl) as (_ & V & N).
  split; [exact V | exact N].
Defined.

Lemma C6_witness :
  (parseSetCookie sampleDateParse sampleNow
     "a=1; Max-Age=3600; Expires=Thu, 01 Jan 1970 00:00:00 GMT"
   = Observed "a" (Some "1") (Some "1970-01-01T00:00:00.000Z") (Some 3600)
   /\ Some "1970-01-01T00:00:00.000Z" = Some (JsDate.toISOString 0))
  /\ (parseSetCookie sampleDateParse sampleNow
        "a=1; expires=Thu, 01 Jan 1970 00:00:00 GMT; max-age=3600"
      = Observed "a" (Some "1") (Some "1970-01-01T00:00:00.000Z") (Some 3600)
      /\ Some "1970-01-01T00:00:00.000Z" = Some (JsDate.toISOString 0))
  /\ (parseSetCookie sampleDateParse sampleNow "s=tok; Max-Age=3600"
      = Observed "s" (Some "tok") (Some "2026-01-01T01:00:00.000Z") (Some 3600)
      /\ Some "2026-01-01T01:00:00.000Z"
         = Some (JsDate.toISOString (sampleNow + 1000 * 3600))).
Proof.
  assert (H1 : parseSetCookie sampleDateParse sampleNow
                 "a=1; Max-Age=3600; Expires=Thu, 01 Jan 1970 00:00:00 GMT"
               = Observed "a" (Some "1") (Some "1970-01-01T00:00:00.000Z") (Some 3600))
    by (vm_compute; reflexivity).
  assert (H2 : parseSetCookie sampleDateParse sampleNow
                 "a=1; expires=Thu, 01 Jan 1970 00:00:00 GMT; max-age=3600"
               = Observed "a" (Some "1") (Some "1970-01-01T00:00:00.000Z") (Some 3600))
    by (vm_compute; reflexivity).
  assert (H3 : parseSetCookie sampleDateParse sampleNow "s=tok; Max-Age=3600"
               = Observed "s" (Some "tok") (Some "2026-01-01T01:00:00.000Z") (Some 3600))
    by (vm_compute; reflexivity).
  assert (None1 : forall p : string, In p [] -> isExpires p = false)
    by (intros p []).
  assert (None2 : forall p : string, In p [" max-age=3600"] -> isExpires p = false)
    by (intros p [<-|[]]; reflexivity).
  assert (None3 : forall p : string,
             In p (tl (JsString.split ";" "s=tok; Max-Age=3600")) -> isExpires p = false)
    by (intros p [<-|[]]; reflexivity).
  assert (Pre3 : forall p : string, In p [] -> isMaxAge p = true ->
                   JsNumber.parseInt (attributeText p) = None)
    by (intros p []).
  split; [|split]; (split; [assumption|]).
  - exact (proj1 (C6_expires_wins_over_max_age sampleDateParse _ _ _ _ _ _ H1)
             [" Max-Age=3600"] " Expires=Thu, 01 Jan 1970 00:00:00 GMT" [] 0
             eq_refl eq_refl eq_refl None1).
  - exact (proj1 (C6_expires_wins_over_max_age sampleDateParse _ _ _ _ _ _ H2)
             [] " expires=Thu, 01 Jan 1970 00:00:00 GMT" [" max-age=3600"] 0
             eq_refl eq_refl eq_refl None2).
  - exact (proj1 (proj2 (C6_expires_wins_over_max_age sampleDateParse _ _ _ _ _ _ H3)
                    [] " Max-Age=3600" [] 3600 eq_refl None3 eq_refl eq_refl Pre3)).
Defined.

Lemma C7_witness :
  onSetCookie sampleDateParse sampleNow "https://x.com/" "x.com" Map.empty
    "a=1; Expires=garbage" = Map.empty
  /\ Map.keys
       (onSetCookie sampleDateParse sampleNow "https://x.com/" "x.com" Map.empty
          "a=1; Max-Age=soon") = ["x.com|a"].
Proof.
  split.
  - exact (proj1 (proj2 (C7_unparseable_expires_drops_cookie sampleDateParse sampleNow
                           "https://x.com/" "x.com" "a=1; Expires=garbage" Map.empty
                           [] [] [] " Expires=garbage" eq_refl eq_refl eq_refl))).
  - reflexivity.
Defined.

Lemma C8_witness :
  exists rep,
    buildReport "https://x.com/" sampleNow
      (run sampleDateParse
         [sampleRequest; sampleSetCookie;
          Snapshot (Some [sampleSessionCookie; sampleMinusOne; sampleFarPast])])
    = Done rep
    /\ totalCookies rep = 2%nat.
Proof.
  pose proof (proj2 (proj2 (proj2 (C8_total_is_number_of_distinct_keys sampleDateParse
                [sampleRequest; sampleSetCookie;
                 Snapshot (Some [sampleSessionCookie; sampleMinusOne; sampleFarPast])])))
                "https://x.com/" sampleNow) as T.
  destruct (buildReport "https://x.com/" sampleNow _) as [rep|] eqn:B.
  - exists rep. split; [reflexivity|]. rewrite (T rep eq_refl). vm_compute. reflexivity.
  - vm_compute in B. discriminate B.
Defined.

Lemma C9_witness :
  exists rep,
    buildReport "https://x.com/" sampleNow
      (run sampleDateParse
         [Request "https://x.com/" "x.com" (Some "a=1; b=2"); sampleSetCookie])
    = Done rep
    /\ (forall d vs, In (d, vs) (cookiesByDomain rep) ->
          vs = map viewSpec
                 (filter (fun c => String.eqb (domain c) d) (allCookies rep)))
    /\ (forall c, In c (allCookies rep) -> expires c <> Some sessionSentinel).
Proof.
  pose proof (C9_sentinel_only_in_grouped_view sampleDateParse
                [Request "https://x.com/" "x.com" (Some "a=1; b=2"); sampleSetCookie]
                "https://x.com/" sampleNow) as T.
  destruct (buildReport "https://x.com/" sampleNow _) as [rep|] eqn:B.
  - exists rep. destruct (T rep eq_refl) as (_ & G & A & _).
    split; [reflexivity|]. split; [exact G|]. intros c Hin. exact (proj2 (A c Hin)).
  - vm_compute in B. discriminate B.
Defined.

Example grouped_view_of_sample :
  match buildReport "https://x.com/" sampleNow
          (run sampleDateParse
             [Request "https://x.com/" "x.com" (Some "a=1; b=2"); sampleSetCookie]) with
  | Done rep =>
      map (fun dv => (fst dv, map View.expires (snd dv))) (cookiesByDomain rep)
      = [("x.com", ["2026-01-01T01:00:00.000Z"; "Session cookie (no expiration)"])]
      /\ map expires (allCookies rep) = [Some "2026-01-01T01:00:00.000Z"; None]
  | Threw => False
  end.
Proof. vm_compute. split; reflexivity. Qed.

(** C10 as stated fails: a negative expiry beyond the range of a Date gives
    no record at all. *)
Lemma C10_far_negative_expires_is_dropped :
  (-9000000000000 # 1 < 0)%Q
  /\ Cdp.expires sampleFarPast = Some (-9000000000000 # 1)%Q
  /\ Map.get "x.com|old" (run sampleDateParse [Snapshot (Some [sampleFarPast])]) = None
  /\ snapshotRecord sampleFarPast = Threw.
Proof. vm_compute. repeat split. Qed.

Lemma C10_witness :
  exists r,
    Map.get ".x.com|sid" (onSnapshotCookie Map.empty sampleMinusOne) = Some r
    /\ expires r = Some "1969-12-31T23:59:59.000Z".
Proof.
  destruct (proj2 (C10_negative_expires_is_a_date sampleMinusOne) Map.empty
              (-1 # 1)%Q eq_refl eq_refl ltac:(discriminate) eq_refl)
    as (r & t & G & E & _).
  exists r. split; [exact G|]. vm_compute in G. injection G as <-. reflexivity.
Defined.

(** * The further properties on sample inputs *)

Lemma allCookies_order_witness :
  exists rep,
    buildReport "https://x.com/" sampleNow
      (run sampleDateParse
         [Request "https://x.com/" "x.com" (Some "b=2; a=1"); sampleSetCookie;
          Snapshot (Some [sampleMinusOne; sampleSessionCookie])]) = Done rep
    /\ map (fun c => keyOf (domain c) (name c)) (allCookies rep)
       = ["x.com|b"; "x.com|a"; ".x.com|sid"].
Proof.
  pose proof (allCookies_in_first_observation_order sampleDateParse
                [Request "https://x.com/" "x.com" (Some "b=2; a=1"); sampleSetCookie;
                 Snapshot (Some [sampleMinusOne; sampleSessionCookie])]
                "https://x.com/" sampleNow) as T.
  destruct (buildReport "https://x.com/" sampleNow _) as [rep|] eqn:B.
  - exists rep. split; [reflexivity|]. rewrite (proj2 (T rep eq_refl)).
    vm_compute. reflexivity.
  - vm_compute in B. discriminate B.
Defined.

Lemma event_frame_witness :
  Map.get "x.com|a"
    (step sampleDateParse (run sampleDateParse [sampleSetCookie])
       (Request "https://y.com/" "y.com" (Some "a=7")))
  = Map.get "x.com|a" (run sampleDateParse [sampleSetCookie]).
Proof.
  apply event_touches_only_its_keys.
  vm_compute. intros [H|[]]. discriminate H.
Defined.

Lemma request_last_segment_witness :
  option_map value
    (Map.get "x.com|a"
       (onRequest (run sampleDateParse [sampleSetCookie]) "https://x.com/" "x.com"
          (Some "a=1; b=2; a=3")))
  = Some (Some "3").
Proof.
  rewrite (proj1 (request_records_last_segment
                    (run sampleDateParse [sampleSetCookie]) "https://x.com/" "x.com"
                    "a=1; b=2; a=3" "x.com|a" eq_refl)).
  reflexivity.
Defined.

Lemma request_twice_witness :
  onRequest
    (onRequest (run sampleDateParse [sampleSetCookie]) "https://x.com/" "x.com"
       (Some "a=1; b=2; a=3"))
    "https://x.com/" "x.com" (Some "a=1; b=2; a=3")
  = onRequest (run sampleDateParse [sampleSetCookie]) "https://x.com/" "x.com"
      (Some "a=1; b=2; a=3").
Proof.
  apply (request_twice_is_request_once sampleDateParse).
  vm_compute. constructor; [intros [] | constructor].
Defined.

Lemma set_cookie_known_cookie_witness :
  exists r,
    Map.get "x.com|a"
      (onSetCookie sampleDateParse sampleNow "https://x.com/" "x.com"
         (run sampleDateParse [sampleRequest]) "a=9; Max-Age=3600") = Some r
    /\ value r = Some "1" /\ expires r = Some "2026-01-01T01:00:00.000Z".
Proof.
  destruct (proj1 (set_cookie_changes_only_expiry_of_known_cookie sampleDateParse
                     (run sampleDateParse [sampleRequest]) sampleNow "https://x.com/"
                     "x.com" "a=9; Max-Age=3600" "a" (Some "9")
                     (Some "2026-01-01T01:00:00.000Z") (Some 3600) eq_refl)
              (requestCookie "x.com" "https://x.com/p" "a=1") eq_refl)
    as (r & G & E & _ & _ & V & _).
  exists r. split; [exact G|]. split; [exact V | exact E].
Defined.

Lemma other_attributes_witness :
  parseSetCookie sampleDateParse sampleNow
    "a=1; Path=/; Max-Age=5; Secure; SameSite=Lax"
  = parseSetCookie sampleDateParse sampleNow "a=1; Max-Age=5".
Proof.
  apply other_attributes_are_ignored; reflexivity.
Defined.

Lemma max_age_out_of_range_witness :
  onSetCookie sampleDateParse sampleNow "https://x.com/" "x.com"
    (run sampleDateParse [sampleRequest]) "b=1; Path=/; Max-Age=8640000000000"
  = run sampleDateParse [sampleRequest].
Proof.
  refine (proj2 (max_age_out_of_range_drops_cookie sampleDateParse sampleNow
                   "https://x.com/" "x.com" "b=1; Path=/; Max-Age=8640000000000"
                   (run sampleDateParse [sampleRequest])
                   [" Path=/"] [] " Max-Age=8640000000000" 8640000000000
                   eq_refl _ _ eq_refl eq_refl eq_refl eq_refl)).
  - intros p [<-|[]]. reflexivity.
  - intros p [<-|[]] H. discriminate H.
Defined.

Lemma dotted_domain_witness :
  Map.get "x.com|sid"
    (capturePageCookies
       (run sampleDateParse [Request "https://x.com/" "x.com" (Some "sid=tok")])
       (Some [sampleMinusOne]))
  = Map.get "x.com|sid"
      (run sampleDateParse [Request "https://x.com/" "x.com" (Some "sid=tok")]).
Proof.
  apply (dotted_domain_snapshot_leaves_host_records sampleDateParse
           (run sampleDateParse [Request "https://x.com/" "x.com" (Some "sid=tok")])
           [sampleMinusOne] "x.com" "sid").
  - intros c [<-|[]]. reflexivity.
  - reflexivity.
Defined.

Lemma snapshot_fills_in_expiry_witness :
  exists r',
    Map.get "x.com|a"
      (capturePageCookies (run sampleDateParse [sampleRequest])
         (Some [sampleSessionCookie; sampleDated])) = Some r'
    /\ expires r' <> None.
Proof.
  destruct (snapshot_fills_in_expiry (run sampleDateParse [sampleRequest])
              [sampleSessionCookie; sampleDated] sampleDated
              {| name := "a"; value := Some "2"; domain := "x.com";
                 url := "https://x.com"; path := Some "/";
                 expires := Some "2026-01-01T00:00:00.500Z"; maxAge := None;
                 httpOnly := Some true; secure := Some true;
                 sameSite := Some "Lax" |}
              (or_intror (or_introl eq_refl)) eq_refl ltac:(discriminate))
    as (r' & G & _ & E).
  exists r'. split; [exact G | exact E].
Defined.

Lemma snapshot_twice_witness :
  capturePageCookies
    (capturePageCookies (run sampleDateParse [sampleRequest])
       (Some [sampleSessionCookie; sampleDated; sampleMinusOne]))
    (Some [sampleSessionCookie; sampleDated; sampleMinusOne])
  = capturePageCookies (run sampleDateParse [sampleRequest])
      (Some [sampleSessionCookie; sampleDated; sampleMinusOne]).
Proof.
  apply (snapshot_twice_is_snapshot_once sampleDateParse).
  vm_compute. constructor; [intros [] | constructor].
Defined.

Lemma groups_partition_witness :
  exists rep,
    buildReport "https://x.com/" sampleNow
      (run sampleDateParse
         [Request "https://x.com/" "x.com" (Some "a=1; b=2");
          Snapshot (Some [sampleMinusOne])]) = Done rep
    /\ groupedCount (cookiesByDomain rep) = 3%nat
    /\ NoDup (map fst (cookiesByDomain rep)).
Proof.
  pose proof (groups_partition_the_records sampleDateParse "https://x.com/" sampleNow
                (run sampleDateParse
                   [Request "https://x.com/" "x.com" (Some "a=1; b=2");
                    Snapshot (Some [sampleMinusOne])])) as T.
  destruct (buildReport "https://x.com/" sampleNow _) as [rep|] eqn:B.
  - exists rep. destruct (T rep eq_refl) as (N & _ & C).
    split; [reflexivity|]. split; [|exact N]. rewrite C.
    vm_compute in B. injection B as <-. reflexivity.
  - vm_compute in B. discriminate B.
Defined.

Lemma report_fails_witness :
  buildReport "https://constructor/" sampleNow
    (run sampleDateParse
       [sampleRequest; Request "https://constructor/" "constructor" (Some "a=1")])
  = Threw.
Proof.
  apply (report_fails_exactly_on_inherited_domain sampleDateParse).
  exists (requestCookie "constructor" "https://constructor/" "a=1").
  split; [right; left; reflexivity | left; reflexivity].
Defined.

Lemma consistent_fields_witness :
  shapeOk
    {| name := "a"; value := Some "2"; domain := "x.com"; url := "https://x.com";
       path := Some "/"; expires := Some "2026-01-01T01:00:00.000Z";
       maxAge := Some 3600; httpOnly := Some true; secure := Some false;
       sameSite := None |}.
Proof.
  apply (stored_records_have_consistent_fields sampleDateParse
           [sampleRequest; Snapshot (Some [sampleSessionCookie]); sampleSetCookie]
           "x.com|a").
  reflexivity.
Defined.


Lemma plain_cookie_header_witness :
  map (fun c => (name c, value c))
    (parseCookieHeader "x.com" "https://x.com/" "a=1; b=2; sid=tok")
  = [("a", Some "1"); ("b", Some "2"); ("sid", Some "tok")].
Proof.
  change "a=1; b=2; sid=tok" with (cookieHeaderOf [("a", "1"); ("b", "2"); ("sid", "tok")]).
  rewrite plain_cookie_header_is_read_back.
  - reflexivity.
  - discriminate.
  - intros n v [[= <- <-]|[[= <- <-]|[[= <- <-]|[]]]]; split; reflexivity.
Defined.

Lemma set_cookie_pair_witness :
  parseSetCookie sampleDateParse sampleNow "s=tok" = Observed "s" (Some "tok") None None
  /\ parseSetCookie sampleDateParse sampleNow "s=tok; Max-Age=3600"
     = Observed "s" (Some "tok") (Some "2026-01-01T01:00:00.000Z") (Some 3600).
Proof.
  destruct (set_cookie_pair_is_read sampleDateParse sampleNow "s" "tok" " Max-Age=3600"
              eq_refl eq_refl ltac:(discriminate)) as [A B].
  split; [exact A|]. etransitivity; [exact B|]. vm_compute. reflexivity.
Defined.
